(** * momepy.distribution: spatial distribution characters

    A shallow embedding of [momepy/distribution.py] and the properties
    of its orientation fold, its pairwise distance cache, its patch
    detection and its per-row metrics.

    Conventions of the embedding.
    - A Python float is a real number or NaN ([float]); rounding is not
      modelled, so of the azimuth only bounds and values that the doubles
      of the source have as well are stated, and no equation between two
      computed angles.
    - A raised exception is the [Raise] branch of [result]; every
      operation that can raise returns a [result].
    - shapely, the rtree index, libpysal and numpy are collaborators of the
      module: shapely and rtree are the class [GeometryProvider], numpy's
      [arctan2] and [degrees] are defined on the reals in [Numpy]. *)

From stdpp Require Import gmap strings list fin_maps.
From Stdlib Require Import Reals Lra.

(** ** Python values *)

Inductive pykey :=
  | Column (name : string)
  | Label (n : nat).

Inductive exn :=
  | KeyError (k : pykey)
  | IndexError
  | ValueError
  | TypeError
  | AttributeError
  | ZeroDivisionError.

Inductive result (A : Type) :=
  | Ok (a : A)
  | Raise (e : exn).
Arguments Ok {A} a.
Arguments Raise {A} e.

#[global] Instance result_ret : MRet result := @Ok.
#[global] Instance result_bind : MBind result :=
  λ A B f m, match m with Ok a => f a | Raise e => Raise e end.
#[global] Instance result_fmap : FMap result :=
  λ A B f m, match m with Ok a => Ok (f a) | Raise e => Raise e end.

(** [for x in xs: body] where the body may raise and appends one value. *)
Fixpoint for_each {A B} (body : A → result B) (xs : list A) : result (list B) :=
  match xs with
  | [] => Ok []
  | x :: xs' => y ← body x; ys ← for_each body xs'; Ok (y :: ys)
  end.

(** ** Floats

    A float is a real number or NaN. Infinities are not modelled: a
    division by zero has the value that division has on the reals of the
    Standard Library. *)

Inductive float :=
  | Fin (r : R)
  | NaN.

Definition Rgtb (x y : R) : bool := if Rgt_dec x y then true else false.
Definition Rgeb (x y : R) : bool := if Rge_dec x y then true else false.
Definition Rleb (x y : R) : bool := if Rle_dec x y then true else false.
Definition Reqb (x y : R) : bool := if Req_dec_T x y then true else false.

Module Float.
Definition lift2 (f : R → R → R) (a b : float) : float :=
  match a, b with
  | Fin x, Fin y => Fin (f x y)
  | _, _ => NaN
  end.
Definition add := lift2 Rplus.
Definition sub := lift2 Rminus.
Definition div := lift2 Rdiv.
Definition abs (a : float) : float :=
  match a with Fin x => Fin (Rabs x) | NaN => NaN end.
(** [a == b]: false whenever one side is NaN. *)
Definition eqb (a b : float) : bool :=
  match a, b with
  | Fin x, Fin y => Reqb x y
  | _, _ => false
  end.
Definition is_nan (a : float) : bool :=
  match a with NaN => true | Fin _ => false end.
Definition sum (xs : list float) : float := foldl add (Fin 0) xs.
(** [statistics.mean] and [np.mean] on a non-empty list. *)
Definition mean (xs : list float) : float :=
  div (sum xs) (Fin (INR (length xs))).
(** [np.nanmean]: NaN entries are ignored; NaN when nothing is left. *)
Definition nanmean (xs : list float) : float :=
  let ys := filter (λ x, is_nan x = false) xs in
  match ys with
  | [] => NaN
  | _ :: _ => mean ys
  end.
End Float.

(** ** numpy *)

Module Numpy.
Local Open Scope R_scope.

(** [np.arctan2(x1, x2)]: the angle of the point with ordinate [x1] and
    abscissa [x2], in [-PI, PI]; [arctan2(0, 0)] is [0]. *)
Definition arctan2 (x1 x2 : R) : R :=
  if Rgtb x2 0 then atan (x1 / x2)
  else if Rgtb 0 x2 then
    if Rgeb x1 0 then atan (x1 / x2) + PI else atan (x1 / x2) - PI
  else if Rgtb x1 0 then PI / 2
  else if Rgtb 0 x1 then - (PI / 2)
  else 0.

Definition degrees (a : R) : R := a * (180 / PI).
End Numpy.

(** ** Planar points (shapely [Point], [LineString([p, q]).centroid]) *)

Record point := Point { px : R; py : R }.

Module Shapely.
Local Open Scope R_scope.
(** [LineString([p, q]).centroid] *)
Definition centroid (p q : point) : point :=
  Point ((px p + px q) / 2) ((py p + py q) / 2).
(** [p.distance(q)] on two points *)
Definition distance (p q : point) : R :=
  sqrt ((px p - px q) * (px p - px q) + (py p - py q) * (py p - py q)).
End Shapely.

(** ** Azimuth and fold *)

Section Azimuth.
Local Open Scope R_scope.

(** [_azimuth] of [orientation]; [azimuth] of [street_alignment] and of
    [neighbouring_street_orientation_deviation] has the same body. *)
Definition _azimuth (point1 point2 : point) : R :=
  let angle := Numpy.arctan2 (px point2 - px point1) (py point2 - py point1) in
  if Rgtb angle 0 then Numpy.degrees angle else Numpy.degrees angle + 180.

(** The [if 90 > az >= 45 ... elif ... elif ...] chain, which the source
    repeats after every call of the azimuth. *)
Definition fold (az : R) : R :=
  if Rgtb 90 az && Rgeb az 45 then
    let diff := az - 45 in
    az - 2 * diff
  else if Rgtb 135 az && Rgeb az 90 then
    let diff := az - 90 in
    let az := az - 2 * diff in
    let diff := az - 45 in
    az - 2 * diff
  else if Rgtb 181 az && Rgeb az 135 then
    let diff := az - 135 in
    let az := az - 2 * diff in
    let diff := az - 90 in
    let az := az - 2 * diff in
    let diff := az - 45 in
    az - 2 * diff
  else az.
End Azimuth.

(** ** The geometry provider (shapely geometries and the rtree index) *)

Class GeometryProvider := {
  geometry : Type;
  (** [g.minimum_rotated_rectangle.exterior.coords] *)
  minimum_rotated_rectangle_coords : geometry → result (list point);
  (** [g.coords] *)
  coords : geometry → list point;
  (** [g.length] *)
  geom_length : geometry → float;
  (** [g.distance(h)] *)
  geom_distance : geometry → geometry → float;
  (** [g.intersection(h).length] *)
  intersection_length : geometry → geometry → float;
  (** [g.intersects(h)] *)
  intersects : geometry → geometry → bool;
  (** whether the bounding box of [g] meets the bounding box [h.bounds],
      which is what the rtree index answers *)
  bounds_intersect : geometry → geometry → bool;
}.

(** ** Cells, rows and tables *)

Section Frames.
Context `{GeometryProvider}.

Inductive value :=
  | VNum (x : float)
  | VInt (n : nat)
  | VGeom (g : geometry)
  | VNone.

(** A row handed out by [iterrows], [iloc[i]] or [loc[label]]. *)
Abbreviation row := (gmap string value).

(** A table: the index labels in row order and the columns by name. *)
Record DataFrame := mkDataFrame {
  df_index : list nat;
  df_data : gmap string (list value);
}.

Definition as_float (v : value) : result float :=
  match v with
  | VNum x => Ok x
  | VInt n => Ok (Fin (INR n))
  | VGeom _ | VNone => Raise TypeError
  end.

Definition as_geom (v : value) : result geometry :=
  match v with
  | VGeom g => Ok g
  | _ => Raise AttributeError
  end.

(** [a == b] on two cells *)
Definition value_eqb (a b : value) : bool :=
  match a, b with
  | VInt n, VInt m => bool_decide (n = m)
  | VNum x, VNum y => Float.eqb x y
  | VInt n, VNum x | VNum x, VInt n => Float.eqb (Fin (INR n)) x
  | _, _ => false
  end.

(** [pd.isnull(v)] *)
Definition isnull (v : value) : bool :=
  match v with
  | VNone | VNum NaN => true
  | _ => false
  end.

(** [l[i]] on a Python list *)
Definition item {A} (l : list A) (i : nat) : result A :=
  match l !! i with
  | Some x => Ok x
  | None => Raise IndexError
  end.

(** [row[c]] *)
Definition getitem (r : gmap string value) (c : string) : result value :=
  match r !! c with
  | Some v => Ok v
  | None => Raise (KeyError (Column c))
  end.

Definition row_at (df : DataFrame) (pos : nat) : row :=
  omap (λ col : list value, col !! pos) (df_data df).

(** [df.iterrows()]: the pairs of label and row, in row order *)
Definition iterrows (df : DataFrame) : list (nat * row) :=
  imap (λ pos lbl, (lbl, row_at df pos)) (df_index df).

(** [df.shape[0]], [len(df)] *)
Definition nrows (df : DataFrame) : nat := length (df_index df).

(** ** pandas *)

(** [df[c]] *)
Definition column (df : DataFrame) (c : string) : result (list value) :=
  match df_data df !! c with
  | Some col => Ok col
  | None => Raise (KeyError (Column c))
  end.

(** [c in df.columns] *)
Definition has_column (df : DataFrame) (c : string) : bool :=
  bool_decide (is_Some (df_data df !! c)).

(** The entries of [l] at which the boolean mask holds. *)
Fixpoint keep {A} (mask : list bool) (l : list A) : list A :=
  match mask, l with
  | b :: mask', x :: l' => if b then x :: keep mask' l' else keep mask' l'
  | _, _ => []
  end.

(** [df[mask]], [df.loc[mask]] *)
Definition select (df : DataFrame) (mask : list bool) : DataFrame :=
  mkDataFrame (keep mask (df_index df)) (keep mask <$> df_data df).

(** [col == v] *)
Definition eq_mask (col : list value) (v : value) : list bool :=
  (λ x, value_eqb x v) <$> col.

(** [col.isin(vs)] *)
Definition isin (col : list value) (vs : list value) : list bool :=
  (λ x, existsb (value_eqb x) vs) <$> col.

(** [df.iloc[p]] *)
Definition iloc (df : DataFrame) (p : nat) : result row :=
  if bool_decide (p < nrows df) then Ok (row_at df p) else Raise IndexError.

(** The entries of [l] at the positions [ps]. *)
Definition pick {A} (ps : list nat) (l : list A) : list A :=
  omap (λ p, l !! p) ps.

(** [df.iloc[ps]] on a list of positions *)
Definition iloc_list (df : DataFrame) (ps : list nat) : result DataFrame :=
  if forallb (λ p, bool_decide (p < nrows df)) ps
  then Ok (mkDataFrame (pick ps (df_index df)) (pick ps <$> df_data df))
  else Raise IndexError.

(** [df.loc[label]]: the row that bears the label *)
Definition loc (df : DataFrame) (label : nat) : result row :=
  match list_find (λ l, l = label) (df_index df) with
  | Some (pos, _) => Ok (row_at df pos)
  | None => Raise (KeyError (Label label))
  end.

(** [df[c] = values] on a list or an array: the lengths must agree *)
Definition set_column (df : DataFrame) (c : string) (values : list value)
    : result DataFrame :=
  if bool_decide (length values = nrows df)
  then Ok (mkDataFrame (df_index df) (<[c := values]> (df_data df)))
  else Raise ValueError.

(** [df[c] = pd.Series(values)]: a series is aligned on its labels, which
    are the positions [0, 1, ...]; a row whose label is not among them
    gets NaN *)
Definition set_column_series (df : DataFrame) (c : string) (values : list float)
    : DataFrame :=
  let aligned := (λ label, VNum (default NaN (values !! label))) <$> df_index df in
  mkDataFrame (df_index df) (<[c := aligned]> (df_data df)).

(** [df.drop(columns=[c])], [df.drop([c], axis=1)]: a new table *)
Definition drop_column (df : DataFrame) (c : string) : result DataFrame :=
  if has_column df c
  then Ok (mkDataFrame (df_index df) (delete c (df_data df)))
  else Raise (KeyError (Column c)).

(** [df.drop([label])]: a new table without the row of that label *)
Definition drop_row (df : DataFrame) (label : nat) : result DataFrame :=
  if bool_decide (label ∈ df_index df)
  then Ok (select df ((λ l, bool_decide (l ≠ label)) <$> df_index df))
  else Raise (KeyError (Label label)).

(** [l.remove(x)] on a Python list *)
Fixpoint list_remove (x : nat) (l : list nat) : result (list nat) :=
  match l with
  | [] => Raise ValueError
  | y :: l' => if bool_decide (y = x) then Ok l' else (y ::.) <$> list_remove x l'
  end.

(** [l[-1]] *)
Definition last_item {A} (l : list A) : result A :=
  match last l with
  | Some x => Ok x
  | None => Raise IndexError
  end.

(** The spatial index of a table: its geometry column, queried by the
    bounds of a geometry. The positions are listed in ascending order. *)
Definition sindex (df : DataFrame) : result (list value) := column df "geometry".

Definition bounds_hit (g : geometry) (v : value) : bool :=
  match v with
  | VGeom h => bounds_intersect h g
  | _ => false
  end.

(** [list(sindex.intersection(g.bounds))] *)
Definition sindex_intersection (index : list value) (g : geometry) : list nat :=
  (filter (λ pv : nat * value, bounds_hit g pv.2) (imap pair index)).*1.

(** [row.geometry], [row['geometry']] as a shapely object *)
Definition geometry_of (r : row) : result geometry :=
  getitem r "geometry" ≫= as_geom.

(** [state = f(state, x)] for every [x], where [f] may raise *)
Fixpoint fold_each {St A} (f : St → A → result St) (s : St) (xs : list A)
    : result St :=
  match xs with
  | [] => Ok s
  | x :: xs' => s' ← f s x; fold_each f s' xs'
  end.

(** ** orientation *)

(** The body of the loop once [bbox] is known. *)
Definition orientation_of_bbox (bbox : list point) : result float :=
  b0 ← item bbox 0;
  b1 ← item bbox 1;
  let centroid_ab := Shapely.centroid b0 b1 in
  b2 ← item bbox 2;
  b3 ← item bbox 3;
  let centroid_cd := Shapely.centroid b2 b3 in
  let axis1 := Shapely.distance centroid_ab centroid_cd in
  let centroid_bc := Shapely.centroid b1 b2 in
  let centroid_da := Shapely.centroid b3 b0 in
  let axis2 := Shapely.distance centroid_bc centroid_da in
  if Rleb axis1 axis2 then
    let az := _azimuth centroid_bc centroid_da in
    Ok (Fin (fold az))
  else
    let az := 170%R in
    let az := _azimuth centroid_ab centroid_cd in
    Ok (Fin (fold az)).

Definition orientation_row (r : row) : result float :=
  g ← geometry_of r;
  bbox ← minimum_rotated_rectangle_coords g;
  orientation_of_bbox bbox.

Definition orientation (objects : DataFrame) : result (list float) :=
  for_each (λ '(index, r), orientation_row r) (iterrows objects).

End Frames.

Abbreviation row := (gmap string value).

(** ** libpysal weights *)

(** [libpysal.weights.W]: [neighbors] is the dict from an id to the list of
    its neighbours, [id_order] the ids in the order [to_adjlist] lists
    them. *)
Record W := mkW {
  neighbors : gmap nat (list nat);
  id_order : list nat;
}.

(** [w.neighbors[i]] *)
Definition neighbors_of (nb : gmap nat (list nat)) (i : nat) : result (list nat) :=
  match nb !! i with
  | Some l => Ok l
  | None => Raise (KeyError (Label i))
  end.

(** The number of directed edges of the graph. *)
Definition edge_count (nb : gmap nat (list nat)) : nat :=
  map_fold (λ _ l acc, length l + acc) 0 nb.

(** ** building_adjacency: the patches *)

(** A loop whose termination is not structural runs on fuel; [None] means
    that the fuel ran out before the loop ended. *)
Definition outcome (A : Type) := option (result A).

(** [while n not in to_join: to_join.append(n); weights = ...neighbors[n];
    for w in weights: neighbours.append(w)] *)
Fixpoint while_not_in (fuel : nat) (nb : gmap nat (list nat)) (n : nat)
    (to_join neighbours : list nat) : outcome (list nat * list nat) :=
  if bool_decide (n ∈ to_join) then Some (Ok (to_join, neighbours))
  else
    match fuel with
    | 0 => None
    | S fuel' =>
      let to_join := to_join ++ [n] in
      match neighbors_of nb n with
      | Raise e => Some (Raise e)
      | Ok weights => while_not_in fuel' nb n to_join (neighbours ++ weights)
      end
    end.

(** [for n in neighbours: while ...]: the iterator of a Python list reads
    position [i] of the list as it is at that moment, so it also visits the
    entries appended by the body. *)
Fixpoint for_neighbours (fuel : nat) (nb : gmap nat (list nat)) (i : nat)
    (to_join neighbours : list nat) : outcome (list nat * list nat) :=
  match neighbours !! i with
  | None => Some (Ok (to_join, neighbours))
  | Some n =>
    match fuel with
    | 0 => None
    | S fuel' =>
      match while_not_in fuel nb n to_join neighbours with
      | None => None
      | Some (Raise e) => Some (Raise e)
      | Some (Ok (to_join', neighbours')) =>
        for_neighbours fuel' nb (S i) to_join' neighbours'
      end
    end
  end.

(** [for b in to_join: patches[b] = jID] *)
Definition fill (patches : gmap nat nat) (to_join : list nat) (jID : nat) : gmap nat nat :=
  foldl (λ p b, <[b := jID]> p) patches to_join.

(** The loop over [objects.iterrows()], of which only the labels are used. *)
Fixpoint patch_loop (fuel : nat) (nb : gmap nat (list nat)) (index : list nat)
    (patches : gmap nat nat) (jID : nat) : outcome (gmap nat nat * nat) :=
  match index with
  | [] => Some (Ok (patches, jID))
  | i :: rest =>
    if bool_decide (is_Some (patches !! i)) then patch_loop fuel nb rest patches jID
    else
      let to_join := [i] in
      let neighbours := [] in
      match neighbors_of nb i with
      | Raise e => Some (Raise e)
      | Ok weights =>
        let neighbours := neighbours ++ weights in
        match for_neighbours fuel nb 0 to_join neighbours with
        | None => None
        | Some (Raise e) => Some (Raise e)
        | Some (Ok (to_join, _)) =>
          patch_loop fuel nb rest (fill patches to_join jID) (jID + 1)
        end
      end
  end.

(** [patches = {}; jID = 1; for index, row in objects.iterrows(): ...],
    with as much fuel as the graph has directed edges. *)
Definition compute_patches (nb : gmap nat (list nat)) (index : list nat)
    : outcome (gmap nat nat * nat) :=
  patch_loop (edge_count nb) nb index ∅ 1.

(** ** mean_interbuilding_distance: the adjacency list and its distances *)

(** A row of [adj_list]; the column [weight] is never read. *)
Record adj_row := mkAdj {
  focal : nat;
  neighbor : nat;
  distance : float;
}.

(** [w.to_adjlist()]: one row for each id of [id_order] and each of its
    neighbours, in that order. *)
Definition to_adjlist (w : W) : list (nat * nat) :=
  flat_map (λ i, (λ n, (i, n)) <$> default [] (neighbors w !! i)) (id_order w).

(** [adj_list['distance'] = -1] *)
Definition with_distance (adj : list (nat * nat)) : list adj_row :=
  (λ '(f, n), mkAdj f n (Fin (-1))) <$> adj.

Definition key (r : adj_row) : nat * nat := (focal r, neighbor r).

(** [adj_list[adj_list.focal == f][adj_list.neighbor == n].iloc[0]['distance']] *)
Definition stored (adj_list : list adj_row) (f n : nat) : result float :=
  match filter (λ r, neighbor r = n) (filter (λ r, focal r = f) adj_list) with
  | r :: _ => Ok (distance r)
  | [] => Raise IndexError
  end.

(** [adj_list.loc[index, 'distance'] = d], [adj_list.at[index, 'distance'] = d] *)
Definition set_distance (adj_list : list adj_row) (index : nat) (d : float) : list adj_row :=
  alter (λ r, mkAdj (focal r) (neighbor r) d) index adj_list.

(** The body of the loop over [adj_list.iterrows()]. [value_fn f n] is the
    distance between the building of cell [n] and the building of cell [f].
    The second component of the state is not in the source: it lists the
    edges for which the distance was computed. *)
Definition cache_step (value_fn : nat → nat → result float)
    (st : list adj_row * list (nat * nat)) (index : nat) (r : adj_row)
    : result (list adj_row * list (nat * nat)) :=
  let '(adj_list, computed) := st in
  inverted ← stored adj_list (neighbor r) (focal r);
  if Float.eqb inverted (Fin (-1)) then
    d ← value_fn (focal r) (neighbor r);
    Ok (set_distance adj_list index d, computed ++ [(focal r, neighbor r)])
  else
    Ok (set_distance adj_list index inverted, computed).

(** [for index, row in adj_list.iterrows()]: [rows] are the rows still to
    come, as they were when the loop started, and [index] the label of the
    first of them. *)
Fixpoint cache_loop (value_fn : nat → nat → result float) (index : nat)
    (rows : list adj_row) (st : list adj_row * list (nat * nat))
    : result (list adj_row * list (nat * nat)) :=
  match rows with
  | [] => Ok st
  | r :: rest =>
    st' ← cache_step value_fn st index r;
    cache_loop value_fn (S index) rest st'
  end.

Definition compute_distances (value_fn : nat → nat → result float)
    (adj_list : list adj_row) : result (list adj_row * list (nat * nat)) :=
  cache_loop value_fn 0 adj_list (adj_list, []).

Definition swap_key (k : nat * nat) : nat * nat := (k.2, k.1).

(** What holds of the adjacency list and of the computed edges when the
    loop is about to read row [i]; [keys] are the edges in row order. *)
Definition cache_inv (value_fn : nat → nat → result float)
    (keys : list (nat * nat)) (i : nat)
    (st : list adj_row * list (nat * nat)) : Prop :=
  key <$> st.1 = keys ∧
  (∀ k r, st.1 !! k = Some r → i ≤ k → distance r = Fin (-1)) ∧
  (∀ k r, st.1 !! k = Some r → k < i → Float.eqb (distance r) (Fin (-1)) = false) ∧
  (∀ k m rk rm, st.1 !! k = Some rk → st.1 !! m = Some rm → m < k → k < i →
     key rm = swap_key (key rk) → distance rk = distance rm) ∧
  NoDup st.2 ∧
  (∀ e, e ∈ st.2 ↔
     ∃ k, k < i ∧ keys !! k = Some e ∧ ∀ m, m < k → keys !! m ≠ Some (swap_key e)) ∧
  (∀ k r, st.1 !! k = Some r → k < i → key r ∈ st.2 →
     value_fn (focal r) (neighbor r) = Ok (distance r)).

(** ** The metrics on tables *)

Section Metrics.
Context `{GeometryProvider}.

(** [Queen.from_dataframe(df)] and [Queen_higher(df, k=order)], which build
    the contiguity weights of a table; the ids are the row positions. *)
Class ContiguityBuilder := {
  Queen_from_dataframe : DataFrame → W;
  Queen_higher : DataFrame → nat → W;
}.
Context `{ContiguityBuilder}.

(** A parameter that is either the name of a column or the values. *)
Inductive column_arg :=
  | ByName (c : string)
  | ByValues (values : list value).

(** *** shared_walls_ratio *)

(** The list [neighbors] once the focal object is removed from it. *)
Definition bbox_neighbors (index_values : list value) (index : nat) (r : row)
    : result (list nat) :=
  g ← geometry_of r;
  let neighbors := sindex_intersection index_values g in
  list_remove index neighbors.

Definition shared_walls_row (objects : DataFrame) (index_values : list value)
    (perimeters : string) (index : nat) (r : row) : result float :=
  neighbors ← bbox_neighbors index_values index r;
  g ← geometry_of r;
  let len := Fin 0 in
  if bool_decide (length neighbors = 0) then Ok (Fin 0)
  else
    len ← fold_each (λ len i,
        subset ← loc objects i ≫= geometry_of;
        Ok (Float.add len (intersection_length g subset))) len neighbors;
    p ← getitem r perimeters ≫= as_float;
    Ok (Float.div len p).

(** The table is changed in place: the first component of the result is
    the table as the caller finds it after the call. *)
Definition shared_walls_ratio (objects : DataFrame) (unique_id : column_arg)
    (perimeters : option column_arg) : result (DataFrame * list float) :=
  index_values ← sindex objects;
  '(objects, perimeters) ←
    match perimeters with
    | None =>
      lengths ← for_each (λ v, g ← as_geom v; Ok (VNum (geom_length g))) index_values;
      objects ← set_column objects "mm_p" lengths;
      Ok (objects, "mm_p")
    | Some (ByName c) => Ok (objects, c)
    | Some (ByValues values) =>
      objects ← set_column objects "mm_p" values;
      Ok (objects, "mm_p")
    end;
  '(objects, unique_id) ←
    match unique_id with
    | ByName c => Ok (objects, c)
    | ByValues values =>
      objects ← set_column objects "mm_uid" values;
      Ok (objects, "mm_uid")
    end;
  results_list ← for_each (λ '(index, r),
      shared_walls_row objects index_values perimeters index r) (iterrows objects);
  objects ← (if has_column objects "mm_p" then drop_column objects "mm_p" else Ok objects);
  Ok (objects, results_list).

(** *** street_alignment *)

Definition street_alignment_row (streets : DataFrame)
    (orientation_column network_id_column : string) (r : row) : result float :=
  network_id ← getitem r network_id_column;
  if isnull network_id then Ok (Fin 0)
  else
    ids ← column streets network_id_column;
    let streetssub := select streets (eq_mask ids network_id) in
    g ← iloc streetssub 0 ≫= geometry_of;
    start ← item (coords g) 0;
    g ← iloc streetssub 0 ≫= geometry_of;
    end_ ← last_item (coords g);
    let az := fold (_azimuth start end_) in
    o ← getitem r orientation_column ≫= as_float;
    Ok (Float.abs (Float.sub o (Fin az))).

Definition street_alignment (objects streets : DataFrame)
    (orientation_column network_id_column : string) : result (list float) :=
  for_each (λ '(index, r),
    street_alignment_row streets orientation_column network_id_column r)
    (iterrows objects).

(** *** cell_alignment *)

Definition cell_alignment_row (tessellation : DataFrame)
    (orientation_column cell_orientation_column unique_id : string) (r : row)
    : result float :=
  o ← getitem r orientation_column ≫= as_float;
  ids ← column tessellation unique_id;
  uid ← getitem r unique_id;
  cells ← column (select tessellation (eq_mask ids uid)) cell_orientation_column;
  c ← item cells 0 ≫= as_float;
  Ok (Float.abs (Float.sub o c)).

Definition cell_alignment (objects tessellation : DataFrame)
    (orientation_column cell_orientation_column unique_id : string)
    : result (list float) :=
  for_each (λ '(index, r),
    cell_alignment_row tessellation orientation_column cell_orientation_column unique_id r)
    (iterrows objects).

(** [tessellation.loc[tessellation[c] == row[c]].index[0]] *)
Definition matching_cell (tessellation : DataFrame) (c : string) (r : row) : result nat :=
  ids ← column tessellation c;
  uid ← getitem r c;
  item (df_index (select tessellation (eq_mask ids uid))) 0.

(** *** alignment *)

Definition alignment_row (objects : DataFrame) (orientation_column : string)
    (tessellation : DataFrame) (weights_matrix : W) (r : row) : result float :=
  id ← matching_cell tessellation "uID" r;
  neighbours ← neighbors_of (neighbors weights_matrix) id;
  neighbours_ids ← for_each (λ n, iloc tessellation n ≫= (λ t, getitem t "uID")) neighbours;
  orientations ← for_each (λ i,
      ids ← column objects "uID";
      b ← iloc (select objects (eq_mask ids i)) 0;
      getitem b orientation_column) neighbours_ids;
  deviations ← for_each (λ o,
      o ← as_float o;
      own ← getitem r orientation_column ≫= as_float;
      Ok (Float.abs (Float.sub o own))) orientations;
  if bool_decide (0 < length deviations) then Ok (Float.mean deviations)
  else Ok (Fin 0).

Definition alignment (objects : DataFrame) (orientation_column : string)
    (tessellation : DataFrame) (weights_matrix : option W) : result (list float) :=
  let weights_matrix :=
    match weights_matrix with
    | None => Queen_from_dataframe tessellation
    | Some w => w
    end in
  for_each (λ '(index, r),
    alignment_row objects orientation_column tessellation weights_matrix r)
    (iterrows objects).

(** *** neighbour_distance *)

Definition neighbour_distance_row (objects tessellation : DataFrame)
    (weights_matrix : W) (r : row) : result float :=
  id ← matching_cell tessellation "uID" r;
  neighbours ← neighbors_of (neighbors weights_matrix) id;
  neighbours_ids ← iloc_list tessellation neighbours ≫= (λ t, column t "uID");
  ids ← column objects "uID";
  let building_neighbours := select objects (isin ids neighbours_ids) in
  if bool_decide (0 < nrows building_neighbours) then
    geoms ← column building_neighbours "geometry";
    g ← geometry_of r;
    distances ← for_each (λ v, h ← as_geom v; Ok (geom_distance h g)) geoms;
    Ok (Float.mean distances)
  else Ok (Fin 0).

Definition neighbour_distance (objects tessellation : DataFrame)
    (weights_matrix : option W) : result (list float) :=
  let weights_matrix :=
    match weights_matrix with
    | None => Queen_from_dataframe tessellation
    | Some w => w
    end in
  for_each (λ '(index, r),
    neighbour_distance_row objects tessellation weights_matrix r)
    (iterrows objects).

(** *** mean_interbuilding_distance *)

(** The distance computed for the row [(focal, neighbor)] of the
    adjacency list. *)
Definition interbuilding_distance (objects tessellation : DataFrame)
    (focal neighbor : nat) : result float :=
  object_id ← iloc tessellation focal ≫= (λ t, getitem t "uID");
  ids ← column objects "uID";
  let building_object := select objects (eq_mask ids object_id) in
  neighbours_id ← iloc tessellation neighbor ≫= (λ t, getitem t "uID");
  ids ← column objects "uID";
  let building_neighbour := select objects (eq_mask ids neighbours_id) in
  gn ← iloc building_neighbour 0 ≫= geometry_of;
  go ← iloc building_object 0 ≫= geometry_of;
  Ok (geom_distance gn go).

(** The body of the loop over the objects. The state is the dict
    [weights_matrix_higher.neighbors], whose list for [id] the statement
    [neighbours.append(id)] extends in place, and [results_list]. *)
Definition mean_interbuilding_row (tessellation : DataFrame) (adj_list : list adj_row)
    (st : gmap nat (list nat) * list float) (r : row)
    : result (gmap nat (list nat) * list float) :=
  let '(higher, results_list) := st in
  id ← matching_cell tessellation "uID" r;
  neighbours ← neighbors_of higher id;
  let neighbours := neighbours ++ [id] in
  let higher := <[id := neighbours]> higher in
  if bool_decide (0 < length neighbours) then
    let selection :=
      filter (λ a, neighbor a ∈ neighbours) (filter (λ a, focal a ∈ neighbours) adj_list) in
    Ok (higher, results_list ++ [Float.nanmean (distance <$> selection)])
  else Ok (higher, results_list).

(** The second component of the result is [weights_matrix_higher] as it is
    after the call. *)
Definition mean_interbuilding_distance (objects tessellation : DataFrame)
    (weights_matrix weights_matrix_higher : option W) (order : nat)
    : result (list float * W) :=
  let weights_matrix :=
    match weights_matrix with
    | None => Queen_from_dataframe tessellation
    | Some w => w
    end in
  let weights_matrix_higher :=
    match weights_matrix_higher with
    | None => Queen_higher tessellation order
    | Some w => w
    end in
  let adj_list := with_distance (to_adjlist weights_matrix) in
  '(adj_list, _) ← compute_distances (interbuilding_distance objects tessellation) adj_list;
  '(higher, results_list) ← fold_each (λ st '(index, r),
      mean_interbuilding_row tessellation adj_list st r)
    (neighbors weights_matrix_higher, []) (iterrows objects);
  Ok (results_list, mkW higher (id_order weights_matrix_higher)).

(** *** neighbouring_street_orientation_deviation *)

Definition street_orientation_row (r : row) : result float :=
  g ← geometry_of r;
  start ← item (coords g) 0;
  g ← geometry_of r;
  end_ ← last_item (coords g);
  Ok (Fin (fold (_azimuth start end_))).

(** The table [neighbors] over which the deviations are averaged. *)
Definition street_neighbors (objects : DataFrame) (index_values : list value)
    (index : nat) (r : row) : result DataFrame :=
  g ← geometry_of r;
  let possible_neighbors_idx := sindex_intersection index_values g in
  possible_neighbours ← iloc_list objects possible_neighbors_idx;
  geoms ← column possible_neighbours "geometry";
  g ← geometry_of r;
  mask ← for_each (λ v, h ← as_geom v; Ok (intersects h g)) geoms;
  let neighbors := select possible_neighbours mask in
  (* [neighbors.drop([index])]: the new table is not bound to a name *)
  _ ← drop_row neighbors index;
  Ok neighbors.

Definition street_deviation_row (objects : DataFrame) (index_values : list value)
    (index : nat) (r : row) : result float :=
  neighbors ← street_neighbors objects index_values index r;
  orientations ← for_each (λ '(idx, r'), getitem r' "tmporient") (iterrows neighbors);
  deviations ← for_each (λ o,
      o ← as_float o;
      own ← getitem r "tmporient" ≫= as_float;
      Ok (Float.abs (Float.sub o own))) orientations;
  if bool_decide (0 < length deviations) then Ok (Float.mean deviations)
  else Ok (Fin 0).

(** The first component of the result is the table as the caller finds it
    after the call. *)
Definition neighbouring_street_orientation_deviation (objects : DataFrame)
    : result (DataFrame * list float) :=
  results_list ← for_each (λ '(index, r), street_orientation_row r) (iterrows objects);
  let series := results_list in
  let objects := set_column_series objects "tmporient" series in
  index_values ← sindex objects;
  results_list ← for_each (λ '(index, r),
      street_deviation_row objects index_values index r) (iterrows objects);
  let series := results_list in
  (* [objects.drop(['tmporient'], axis=1)]: the new table is not bound to
     a name *)
  _ ← drop_column objects "tmporient";
  Ok (objects, series).

(** *** building_adjacency *)

(** [len(set(l))] *)
Definition count_distinct (l : list nat) : nat := length (remove_dups l).

Definition building_adjacency_row (objects tessellation : DataFrame)
    (weights_matrix_higher : W) (unique_id : string) (patches : gmap nat nat)
    (index : nat) (r : row) : result float :=
  id ← matching_cell tessellation unique_id r;
  neighbours ← neighbors_of (neighbors weights_matrix_higher) id;
  neighbours_ids ← iloc_list tessellation neighbours ≫= (λ t, column t unique_id);
  uid ← getitem r unique_id;
  let neighbours_ids := neighbours_ids ++ [uid] in
  ids ← column objects unique_id;
  let building_neighbours := select objects (isin ids neighbours_ids) in
  let indices := df_index building_neighbours in
  patches_sub ← for_each (λ x,
      match patches !! x with
      | Some j => Ok j
      | None => Raise (KeyError (Label x))
      end) indices;
  let patches_nr := count_distinct patches_sub in
  if bool_decide (patches_nr = 0) then Raise ZeroDivisionError
  else Ok (Fin (INR (nrows building_neighbours) / INR patches_nr)).

Definition building_adjacency (objects tessellation : DataFrame)
    (weights_matrix weights_matrix_higher : option W) (order : nat)
    (unique_id : string) : outcome (list float) :=
  let weights_matrix :=
    match weights_matrix with
    | None => Queen_from_dataframe objects
    | Some w => w
    end in
  let weights_matrix_higher :=
    match weights_matrix_higher with
    | None => Queen_higher tessellation order
    | Some w => w
    end in
  match compute_patches (neighbors weights_matrix) (df_index objects) with
  | None => None
  | Some (Raise e) => Some (Raise e)
  | Some (Ok (patches, jID)) =>
    Some (for_each (λ '(index, r),
      building_adjacency_row objects tessellation weights_matrix_higher unique_id
        patches index r) (iterrows objects))
  end.

End Metrics.

(** ** Scenes: concrete providers and tables *)

(** The length of the path through the points. *)
Fixpoint path_length (ps : list point) : R :=
  match ps with
  | p :: (q :: _) as rest => (Shapely.distance p q + path_length rest)%R
  | _ => 0%R
  end.

(** A scene with a single rectangle, given by the ring of its vertices.
    The rectangle is its own minimum rotated rectangle, it touches itself
    along its whole boundary and lies at distance 0 from itself. *)
Definition lone_rectangle (ring : list point) : GeometryProvider := {|
  geometry := unit;
  minimum_rotated_rectangle_coords := λ _, Ok ring;
  coords := λ _, ring;
  geom_length := λ _, Fin (path_length ring);
  geom_distance := λ _ _, Fin 0;
  intersection_length := λ _ _, Fin (path_length ring);
  intersects := λ _ _, true;
  bounds_intersect := λ _ _, true;
|}.

(** A contiguity builder for scenes in which no two cells touch. *)
Definition isolated_cells `{GeometryProvider} : ContiguityBuilder := {|
  Queen_from_dataframe := λ df,
    mkW (list_to_map ((λ i, (i, [])) <$> seq 0 (nrows df))) (seq 0 (nrows df));
  Queen_higher := λ df _,
    mkW (list_to_map ((λ i, (i, [])) <$> seq 0 (nrows df))) (seq 0 (nrows df));
|}.

Definition the_rectangle (ring : list point) : @geometry (lone_rectangle ring) := tt.

(** A table with the single geometry of a one-geometry scene and the
    identifier 7, under the given label, and its only row. *)
Definition single_object (ring : list point) (label : nat)
    : @DataFrame (lone_rectangle ring) :=
  mkDataFrame [label] {[ "geometry" := [VGeom (the_rectangle ring)];
                         "uID" := [VInt 7] ]}.

Definition single_row (ring : list point) : gmap string (@value (lone_rectangle ring)) :=
  {[ "geometry" := VGeom (the_rectangle ring); "uID" := VInt 7 ]}.

(** The same table with the identifier column named [id], and a table
    with that column and no row. *)
Definition renamed_object (ring : list point) : @DataFrame (lone_rectangle ring) :=
  mkDataFrame [0] {[ "geometry" := [VGeom (the_rectangle ring)];
                     "orientation" := [VNum (Fin 0)];
                     "id" := [VInt 7] ]}.

Definition no_object (ring : list point) : @DataFrame (lone_rectangle ring) :=
  mkDataFrame [] {[ "geometry" := []; "orientation" := []; "id" := [] ]}.

(** The weights of a single cell without neighbours. *)
Definition lone_cell : W := mkW {[ 0 := [] ]} [0].

(** The rectangle with corners (0,0) and (1,2): its long side lies along
    the y axis. *)
Definition upright_ring : list point :=
  [Point 0 0; Point 1 0; Point 1 2; Point 0 2; Point 0 0].

(** Two street segments that meet at (0,1): segment 0 runs north from
    (0,0) to (0,1), segment 1 runs north-east from (0,1) to (1,2). A
    straight segment has no polygon as minimum rotated rectangle. *)
Definition two_streets : GeometryProvider := {|
  geometry := nat;
  minimum_rotated_rectangle_coords := λ _, Raise AttributeError;
  coords := λ s,
    match s with
    | 0 => [Point 0 0; Point 0 1]
    | _ => [Point 0 1; Point 1 2]
    end;
  geom_length := λ s, match s with 0 => Fin 1 | _ => Fin (sqrt 2) end;
  geom_distance := λ _ _, Fin 0;
  intersection_length := λ s t,
    if bool_decide (s = t) then match s with 0 => Fin 1 | _ => Fin (sqrt 2) end
    else Fin 0;
  intersects := λ _ _, true;
  bounds_intersect := λ _ _, true;
|}.

Definition street_table : @DataFrame two_streets :=
  mkDataFrame [0; 1]
    {[ "geometry" := [VGeom (0 : @geometry two_streets); VGeom (1 : @geometry two_streets)] ]}.

(** A street table with the single segment 0 of [two_streets], under the
    given label. *)
Definition single_street (label : nat) : @DataFrame two_streets :=
  mkDataFrame [label] {[ "geometry" := [VGeom (0 : @geometry two_streets)] ]}.

(** The street table with the column [tmporient] attached. *)
Definition oriented_streets (o0 o1 : R) : @DataFrame two_streets :=
  set_column_series street_table "tmporient" [Fin o0; Fin o1].

(** The L-shaped group of three touching squares 0, 1, 2 of the spec, an
    isolated square 3 and a pair of touching squares 4, 5. *)
Definition six_squares : gmap nat (list nat) :=
  list_to_map [(0, [1]); (1, [0; 2]); (2, [1]); (3, []); (4, [5]); (5, [4])].

(** A check of [symmetric] that can be run. *)
Definition symmetricb (nb : gmap nat (list nat)) : bool :=
  bool_decide (map_Forall (λ a ws, Forall (λ b, a ∈ default [] (nb !! b)) ws) nb).

(** ** The order-1 graph as a relation *)

(** [b] is in the neighbour list of [a]. *)
Definition edge (nb : gmap nat (list nat)) (a b : nat) : Prop :=
  ∃ ws, nb !! a = Some ws ∧ b ∈ ws.

(** [a] and [b] are joined by a path of edges (the empty path included). *)
Definition connected (nb : gmap nat (list nat)) : relation nat := rtc (edge nb).

Definition symmetric (nb : gmap nat (list nat)) : Prop :=
  ∀ a b, edge nb a b → edge nb b a.

(** [rest] is the graph without the objects that have joined. *)
Definition unjoined (nb : gmap nat (list nat)) (to_join : list nat)
    (rest : gmap nat (list nat)) : Prop :=
  ∀ k, rest !! k = if bool_decide (k ∈ to_join) then None else nb !! k.

(** What the loop over the table keeps true of [patches] and [jID]. *)
Definition patches_inv (nb : gmap nat (list nat)) (patches : gmap nat nat) (jID : nat) : Prop :=
  1 ≤ jID ∧
  (∀ a j, patches !! a = Some j → 1 ≤ j < jID) ∧
  (∀ a b ja jb, patches !! a = Some ja → patches !! b = Some jb →
     (ja = jb ↔ connected nb a b)) ∧
  (∀ a b, is_Some (patches !! a) → connected nb a b → is_Some (patches !! b)).

(** Two cells under the labels 10 and 11 that bear the same identifier 7,
    and a row whose identifier 8 is the identifier of no cell. *)
Definition twin_cells : @DataFrame (lone_rectangle upright_ring) :=
  mkDataFrame [10; 11] {[ "uID" := [VInt 7; VInt 7] ]}.

Definition stray_row : gmap string (@value (lone_rectangle upright_ring)) :=
  {[ "geometry" := VGeom (the_rectangle upright_ring); "uID" := VInt 8 ]}.

(** The L-shaped group of three squares as tables: the objects 0, 1, 2
    with the identifiers 0, 1, 2, their order-1 weights, and the weights in
    which every square is a neighbour of the two others. *)
Definition l_shape_table : @DataFrame (lone_rectangle upright_ring) :=
  mkDataFrame [0; 1; 2] {[ "uID" := [VInt 0; VInt 1; VInt 2] ]}.

Definition l_shape_weights : W :=
  mkW (list_to_map [(0, [1]); (1, [0; 2]); (2, [1])]) [0; 1; 2].

Definition l_shape_higher : W :=
  mkW (list_to_map [(0, [1; 2]); (1, [0; 2]); (2, [0; 1])]) [0; 1; 2].

(** [series] has one value for each row of [df], and the value at a
    position is the one that [body] computes from the label and the row at
    that position. *)
Definition row_by_row `{GeometryProvider} (df : DataFrame)
    (body : nat → row → result float) (series : list float) : Prop :=
  length series = nrows df ∧
  ∀ i v, series !! i = Some v →
    ∃ label, df_index df !! i = Some label ∧ body label (row_at df i) = Ok v.

(** The number of the rows that [matching_cell] matches to the cell [k]. *)
Definition matched_rows `{GeometryProvider} (tessellation : DataFrame) (k : nat)
    (rows : list (nat * row)) : nat :=
  length (List.filter (λ x : nat * row,
    match matching_cell tessellation "uID" x.2 with
    | Ok id => bool_decide (id = k)
    | Raise _ => false
    end) rows).

(** A float that is not a negative number. *)
Definition nonneg_or_nan (x : float) : Prop :=
  match x with
  | Fin r => (0 <= r)%R
  | NaN => True
  end.

(** * Properties *)

(** Rewrite with the value of a step and enter the continuation. *)
Ltac run H := rewrite H; cbn [mbind result_bind].

(** ** The orientation range *)

Section AzimuthFacts.
Local Open Scope R_scope.

Lemma Rgtb_true x y : Rgtb x y = true ↔ x > y.
Proof. unfold Rgtb. destruct (Rgt_dec x y); split; intros; try done. Qed.

Lemma Rgeb_true x y : Rgeb x y = true ↔ x >= y.
Proof. unfold Rgeb. destruct (Rge_dec x y); split; intros; try done. Qed.

Lemma Rleb_true x y : Rleb x y = true ↔ x <= y.
Proof. unfold Rleb. destruct (Rle_dec x y); split; intros; try done. Qed.

Lemma Reqb_true x y : Reqb x y = true ↔ x = y.
Proof. unfold Reqb. destruct (Req_dec_T x y); split; intros; try done. Qed.

Lemma arctan2_range x1 x2 : - PI <= Numpy.arctan2 x1 x2 <= PI.
Proof.
  pose proof PI_RGT_0 as Hpi.
  unfold Numpy.arctan2, Rgtb, Rgeb.
  destruct (Rgt_dec x2 0) as [Hpos|Hnpos].
  { pose proof (atan_bound (x1 / x2)). lra. }
  destruct (Rgt_dec 0 x2) as [Hneg|Hnneg].
  - destruct (Rge_dec x1 0) as [Hx1|Hx1].
    + assert (x1 / x2 <= 0) as Hq.
      { assert (/ x2 < 0) by (apply Rinv_lt_0_compat; lra).
        unfold Rdiv. nra. }
      pose proof (atan_bound (x1 / x2)) as Hb.
      assert (atan (x1 / x2) <= 0).
      { destruct Hq as [Hq|Hq].
        - left. rewrite <- atan_0. by apply atan_increasing.
        - rewrite Hq, atan_0. lra. }
      lra.
    + assert (0 < x1 / x2) as Hq.
      { assert (/ x2 < 0) by (apply Rinv_lt_0_compat; lra).
        unfold Rdiv. nra. }
      pose proof (atan_bound (x1 / x2)) as Hb.
      assert (0 < atan (x1 / x2)).
      { rewrite <- atan_0. by apply atan_increasing. }
      lra.
  - destruct (Rgt_dec x1 0); [lra|]. destruct (Rgt_dec 0 x1); lra.
Qed.

Lemma degrees_range a : - PI <= a <= PI → -180 <= Numpy.degrees a <= 180.
Proof.
  intros [Hlo Hhi]. pose proof PI_RGT_0 as Hpi. unfold Numpy.degrees.
  assert (0 < 180 / PI) as Hk by (apply Rdiv_lt_0_compat; lra).
  assert (PI * (180 / PI) = 180) as Hone by (field; lra).
  set (k := 180 / PI) in *. split; nra.
Qed.

Lemma degrees_pos a : a > 0 → Numpy.degrees a > 0.
Proof.
  intros Ha. pose proof PI_RGT_0 as Hpi. unfold Numpy.degrees.
  apply Rmult_lt_0_compat; [lra|]. apply Rdiv_lt_0_compat; lra.
Qed.

Lemma azimuth_range p q : 0 <= _azimuth p q <= 180.
Proof.
  unfold _azimuth.
  set (angle := Numpy.arctan2 _ _).
  pose proof (degrees_range angle (arctan2_range _ _)) as Hd.
  destruct (Rgtb angle 0) eqn:Hang.
  - apply Rgtb_true in Hang. apply degrees_pos in Hang. lra.
  - assert (¬ angle > 0) as Hn by (rewrite <- Rgtb_true; congruence).
    assert (Numpy.degrees angle <= 0); [|lra].
    unfold Numpy.degrees. pose proof PI_RGT_0.
    assert (0 < 180 / PI) by (apply Rdiv_lt_0_compat; lra).
    replace 0 with (0 * (180 / PI)) by ring.
    apply Rmult_le_compat_r; lra.
Qed.

Lemma fold_range az : 0 <= az <= 180 → 0 <= fold az <= 45.
Proof.
  intros Haz. unfold fold, Rgtb, Rgeb.
  repeat (destruct (Rgt_dec _ _); destruct (Rge_dec _ _); simpl; try lra).
Qed.

End AzimuthFacts.

Section ForEach.
Context {A B : Type} (body : A → result B).

Lemma for_each_Ok xs ys :
  for_each body xs = Ok ys → Forall2 (λ x y, body x = Ok y) xs ys.
Proof.
  revert ys. induction xs as [|x xs IH]; intros ys Hrun; simpl in Hrun.
  - injection Hrun as <-. constructor.
  - destruct (body x) as [y|e] eqn:Hx; simpl in Hrun; [|done].
    destruct (for_each body xs) as [ys'|e] eqn:Hxs; simpl in Hrun; [|done].
    injection Hrun as <-. constructor; auto.
Qed.

Lemma for_each_length xs ys : for_each body xs = Ok ys → length ys = length xs.
Proof. intros Hrun. symmetry. eapply Forall2_length, for_each_Ok, Hrun. Qed.

Lemma for_each_total xs :
  (∀ x, x ∈ xs → ∃ y, body x = Ok y) → ∃ ys, for_each body xs = Ok ys.
Proof.
  induction xs as [|x xs IH]; intros Hall; simpl; [by eexists|].
  destruct (Hall x) as [y ->]; [left|].
  destruct IH as [ys ->]; [|by eexists].
  intros x' Hx'. apply Hall. by right.
Qed.

Lemma for_each_first_raise pre x post e :
  (∀ y, y ∈ pre → ∃ v, body y = Ok v) → body x = Raise e →
  for_each body (pre ++ x :: post) = Raise e.
Proof.
  intros Hpre Hx. induction pre as [|y pre IH]; simpl; [by rewrite Hx|].
  destruct (Hpre y) as [v ->]; [left|]. simpl.
  rewrite IH; [done|]. intros z Hz. apply Hpre. by right.
Qed.

Lemma for_each_raises xs x e :
  x ∈ xs → body x = Raise e → ∃ e', for_each body xs = Raise e'.
Proof.
  intros Hin Hx. induction xs as [|y xs IH]; [by apply elem_of_nil in Hin|]. simpl.
  destruct (body y) as [v|e'] eqn:Hy; simpl; [|by eexists].
  apply elem_of_cons in Hin as [->|Hin]; [congruence|].
  destruct (IH Hin) as [e' ->]. by eexists.
Qed.

Lemma for_each_Raise xs x xs' e :
  xs = x :: xs' → body x = Raise e → for_each body xs = Raise e.
Proof. intros -> Hx. simpl. by rewrite Hx. Qed.

End ForEach.

Section OrientationFacts.
Context `{GeometryProvider}.
Local Open Scope R_scope.

Lemma orientation_of_bbox_range bbox v :
  orientation_of_bbox bbox = Ok v → ∃ r, v = Fin r ∧ 0 <= r <= 45.
Proof.
  unfold orientation_of_bbox. intros Hrun.
  destruct (item bbox 0) as [b0|]; simpl in Hrun; [|done].
  destruct (item bbox 1) as [b1|]; simpl in Hrun; [|done].
  destruct (item bbox 2) as [b2|]; simpl in Hrun; [|done].
  destruct (item bbox 3) as [b3|]; simpl in Hrun; [|done].
  destruct (Rleb _ _); injection Hrun as <-;
    eexists; (split; [reflexivity|]); apply fold_range, azimuth_range.
Qed.

Lemma orientation_row_range r v :
  orientation_row r = Ok v → ∃ x, v = Fin x ∧ 0 <= x <= 45.
Proof.
  unfold orientation_row. intros Hrun.
  destruct (geometry_of r) as [g|]; simpl in Hrun; [|done].
  destruct (minimum_rotated_rectangle_coords g) as [bbox|]; simpl in Hrun; [|done].
  by eapply orientation_of_bbox_range.
Qed.

(** C1. Whenever [orientation] returns, every value of the series is a
    number between 0 and 45 inclusive: the azimuth of the longer axis lies
    in [0, 180] and the three-stage fold brings it into [0, 45]. *)
Theorem orientation_range (objects : DataFrame) (series : list float) :
  orientation objects = Ok series →
  ∀ v, v ∈ series → ∃ x, v = Fin x ∧ 0 <= x <= 45.
Proof.
  unfold orientation. intros Hrun v Hv.
  apply for_each_Ok in Hrun.
  apply list_elem_of_lookup in Hv as [i Hi].
  destruct (Forall2_lookup_r _ _ _ _ _ Hrun Hi) as ([index r] & _ & Hrow).
  by eapply orientation_row_range.
Qed.

Lemma fold_180 : fold 180 = 0.
Proof.
  unfold fold, Rgtb, Rgeb.
  repeat (destruct (Rgt_dec _ _); destruct (Rge_dec _ _); simpl; try lra).
Qed.

Lemma orientation_of_bbox_total b0 b1 b2 b3 rest :
  ∃ x, orientation_of_bbox (b0 :: b1 :: b2 :: b3 :: rest) = Ok (Fin x).
Proof. unfold orientation_of_bbox. simpl. destruct (Rleb _ _); by eexists. Qed.

(** C7. A degenerate geometry has no polygon as minimum rotated
    rectangle: shapely hands out a point or a line, and reading its
    [exterior] raises. [orientation] handles no error: the row of such a
    geometry raises the error of the provider, and a table that holds such
    a row yields no series. It raises, and what it raises is this very
    error when the rows before that row complete. *)
Theorem orientation_zero_length_axis (objects : DataFrame)
    (pre post : list (nat * row)) (index : nat) (r : row) (g : geometry) (e : exn) :
  iterrows objects = pre ++ (index, r) :: post →
  getitem r "geometry" = Ok (VGeom g) →
  minimum_rotated_rectangle_coords g = Raise e →
  orientation_row r = Raise e ∧
  (∃ e', orientation objects = Raise e') ∧
  ((∀ x, x ∈ pre → ∃ v, orientation_row x.2 = Ok v) → orientation objects = Raise e).
Proof.
  intros Hrows Hg Hbbox.
  assert (orientation_row r = Raise e) as Hrow.
  { unfold orientation_row, geometry_of. rewrite Hg. simpl. by rewrite Hbbox. }
  unfold orientation. rewrite Hrows. split_and!; [done| |].
  - apply (for_each_raises _ _ (index, r) e); [|done].
    apply elem_of_app. right. left.
  - intros Hpre. apply for_each_first_raise; [|done].
    intros [label x] Hx. by apply (Hpre _ Hx).
Qed.

End OrientationFacts.

Section OrientationScenes.
Local Open Scope R_scope.

Lemma iterrows_single_object ring label :
  iterrows (single_object ring label) = [(label, single_row ring)].
Proof. by vm_compute. Qed.

Lemma single_object_geometry ring :
  getitem (single_row ring) "geometry" = Ok (VGeom (the_rectangle ring)).
Proof. by vm_compute. Qed.

(** Witness of C7: a table whose only geometry is a straight segment, the
    minimum rotated rectangle of which is the segment itself. *)
Lemma orientation_zero_length_axis_witness :
  orientation (single_street 0) = Raise AttributeError.
Proof.
  destruct (orientation_zero_length_axis (single_street 0) [] []
    0%nat (row_at (single_street 0) 0) (0%nat : @geometry two_streets) AttributeError)
    as (_ & _ & Hfirst); [by vm_compute..|].
  apply Hfirst. intros x Hx. by apply elem_of_nil in Hx.
Defined.

(** Witness of C1: the upright rectangle. *)
Lemma orientation_range_witness :
  ∃ series, orientation (single_object upright_ring 0) = Ok series ∧
    ∀ v, v ∈ series → ∃ x, v = Fin x ∧ 0 <= x <= 45.
Proof.
  assert (∃ series, orientation (single_object upright_ring 0) = Ok series) as [series Hrun].
  { unfold orientation. rewrite iterrows_single_object. simpl.
    unfold orientation_row, geometry_of. rewrite single_object_geometry. simpl.
    destruct (orientation_of_bbox_total
      (Point 0 0) (Point 1 0) (Point 1 2) (Point 0 2) [Point 0 0]) as [x Hx].
    unfold upright_ring. rewrite Hx. by eexists. }
  exists series. split; [done|]. exact (orientation_range _ _ Hrun).
Defined.

(** The scenario of the spec: a rectangle whose long side lies along the y
    axis has orientation 0. *)
Example upright_rectangle_orientation :
  orientation (single_object upright_ring 0) = Ok [Fin 0].
Proof.
  unfold orientation. rewrite iterrows_single_object. simpl.
  unfold orientation_row, geometry_of. run (single_object_geometry upright_ring). simpl.
  unfold upright_ring, orientation_of_bbox. simpl.
  set (axis1 := Shapely.distance _ _). set (axis2 := Shapely.distance _ _).
  assert (axis2 < axis1) as Hlt.
  { unfold axis1, axis2, Shapely.distance. simpl.
    apply sqrt_lt_1_alt. lra. }
  destruct (Rleb axis1 axis2) eqn:Hle; [apply Rleb_true in Hle; lra|].
  assert (_azimuth (Shapely.centroid (Point 0 0) (Point 1 0))
            (Shapely.centroid (Point 1 2) (Point 0 2)) = 180) as ->;
    [|by rewrite fold_180].
  unfold _azimuth, Numpy.arctan2, Shapely.centroid. simpl.
  replace ((2 + 2) / 2 - (0 + 0) / 2) with 2 by lra.
  replace ((1 + 0) / 2 - (0 + 1) / 2) with 0 by lra.
  assert (Rgtb 2 0 = true) as -> by (apply Rgtb_true; lra).
  replace (0 / 2) with 0 by lra. rewrite atan_0.
  destruct (Rgtb 0 0) eqn:Hgt; [apply Rgtb_true in Hgt; lra|].
  unfold Numpy.degrees. lra.
Qed.

End OrientationScenes.

(** ** Patch detection: termination *)

Section PatchTermination.
Implicit Types (nb rest : gmap nat (list nat)) (to_join neighbours : list nat).

Lemma edge_count_delete nb n ws :
  nb !! n = Some ws → edge_count nb = length ws + edge_count (delete n nb).
Proof.
  intros Hn. unfold edge_count.
  apply (map_fold_delete_L (λ _ l acc, length l + acc)); [|done].
  intros; lia.
Qed.

(** The body of the [while] loop runs at most once: after it, [n] is in
    [to_join]. *)
Lemma while_not_in_joined fuel nb n to_join neighbours :
  n ∈ to_join →
  while_not_in fuel nb n to_join neighbours = Some (Ok (to_join, neighbours)).
Proof. intros Hn. destruct fuel; simpl; by rewrite bool_decide_true. Qed.

Lemma while_not_in_new fuel nb n to_join neighbours :
  n ∉ to_join →
  while_not_in (S fuel) nb n to_join neighbours =
    Some (match neighbors_of nb n with
          | Raise e => Raise e
          | Ok weights => Ok (to_join ++ [n], neighbours ++ weights)
          end).
Proof.
  intros Hn. simpl. rewrite bool_decide_false by done.
  destruct (neighbors_of nb n) as [weights|e]; [|done].
  apply while_not_in_joined. set_solver.
Qed.

Lemma unjoined_join nb to_join rest n :
  unjoined nb to_join rest → unjoined nb (to_join ++ [n]) (delete n rest).
Proof.
  intros Hrest k. destruct (decide (k = n)) as [->|Hne].
  - rewrite lookup_delete_eq, bool_decide_true; [done|set_solver].
  - rewrite lookup_delete_ne by done. rewrite Hrest.
    destruct (decide (k ∈ to_join)).
    + rewrite !bool_decide_true; [done|set_solver|done].
    + rewrite !bool_decide_false; [done| |done].
      intros [?|?%list_elem_of_singleton]%elem_of_app; done.
Qed.

Lemma for_neighbours_unfold fuel nb i to_join neighbours :
  for_neighbours (S fuel) nb i to_join neighbours =
    match neighbours !! i with
    | None => Some (Ok (to_join, neighbours))
    | Some n =>
      match while_not_in (S fuel) nb n to_join neighbours with
      | None => None
      | Some (Raise e) => Some (Raise e)
      | Some (Ok (to_join', neighbours')) =>
        for_neighbours fuel nb (S i) to_join' neighbours'
      end
    end.
Proof. done. Qed.

Lemma for_neighbours_terminates fuel nb rest i to_join neighbours :
  unjoined nb to_join rest →
  NoDup to_join →
  edge_count rest + (length neighbours - i) ≤ fuel →
  ∃ r, for_neighbours fuel nb i to_join neighbours = Some r ∧
    ∀ to_join' neighbours', r = Ok (to_join', neighbours') →
      NoDup to_join' ∧ length neighbours' ≤ length neighbours + edge_count rest.
Proof.
  revert rest i to_join neighbours.
  induction fuel as [|fuel IH]; intros rest i to_join neighbours Hrest Hnd Hfuel.
  - simpl. destruct (neighbours !! i) as [n|] eqn:Hi.
    + apply lookup_lt_Some in Hi. lia.
    + eexists; split; [done|]. intros ?? [= <- <-]. split; [done|lia].
  - rewrite for_neighbours_unfold. destruct (neighbours !! i) as [n|] eqn:Hi.
    2:{ eexists; split; [done|]. intros ?? [= <- <-]. split; [done|lia]. }
    apply lookup_lt_Some in Hi.
    destruct (decide (n ∈ to_join)) as [Hin|Hnin].
    + rewrite while_not_in_joined by done.
      destruct (IH rest (S i) to_join neighbours) as (r & -> & Hr); [done|done|lia|].
      eauto.
    + rewrite while_not_in_new by done.
      unfold neighbors_of. destruct (nb !! n) as [weights|] eqn:Hn.
      2:{ eexists; split; [done|]. by intros. }
      assert (rest !! n = Some weights) as Hrn.
      { rewrite Hrest, bool_decide_false by done. done. }
      pose proof (edge_count_delete _ _ _ Hrn) as Hcount.
      destruct (IH (delete n rest) (S i) (to_join ++ [n]) (neighbours ++ weights))
        as (r & -> & Hr).
      * by apply unjoined_join.
      * apply NoDup_app. split_and!; [done| |apply NoDup_singleton].
        intros x Hx ->%list_elem_of_singleton. done.
      * rewrite length_app. lia.
      * eexists; split; [done|]. intros tj' ns' Heq.
        destruct (Hr _ _ Heq) as [? Hlen]. split; [done|].
        rewrite length_app in Hlen. lia.
Qed.

Lemma unjoined_start nb i : unjoined nb [i] (delete i nb).
Proof.
  intros k. destruct (decide (k = i)) as [->|Hne].
  - rewrite lookup_delete_eq, bool_decide_true; [done|set_solver].
  - rewrite lookup_delete_ne, bool_decide_false; [done| |done].
    intros ?%list_elem_of_singleton. done.
Qed.

(** One traversal, started as [patch_loop] starts it. *)
Lemma traversal_terminates nb i weights :
  neighbors_of nb i = Ok weights →
  ∃ r, for_neighbours (edge_count nb) nb 0 [i] weights = Some r ∧
    ∀ to_join neighbours, r = Ok (to_join, neighbours) →
      NoDup to_join ∧ length neighbours ≤ edge_count nb.
Proof.
  unfold neighbors_of. destruct (nb !! i) as [ws|] eqn:Hi; [|done].
  intros [= ->]. pose proof (edge_count_delete _ _ _ Hi) as Hcount.
  destruct (for_neighbours_terminates (edge_count nb) nb (delete i nb) 0 [i] weights)
    as (r & Hr & Hpost).
  - apply unjoined_start.
  - apply NoDup_singleton.
  - simpl. lia.
  - exists r. split; [done|]. intros tj ns Heq.
    destruct (Hpost _ _ Heq) as [? Hlen]. split; [done|]. simpl in Hlen. lia.
Qed.

Lemma patch_loop_terminates nb index patches jID :
  ∃ r, patch_loop (edge_count nb) nb index patches jID = Some r.
Proof.
  revert patches jID. induction index as [|i rest IH]; intros patches jID; simpl.
  - by eexists.
  - destruct (bool_decide (is_Some (patches !! i))); [apply IH|].
    destruct (neighbors_of nb i) as [weights|e] eqn:Hi; [|by eexists].
    destruct (traversal_terminates nb i weights Hi) as ([[tj ns]|e] & -> & _).
    + apply IH.
    + by eexists.
Qed.

(** C9. The patch-detection loop ends on every graph and every table: with
    as much fuel as the graph has directed edges the loop never runs out
    of it. In each traversal an object joins [to_join] at most once, and
    the list [neighbours], which grows only when an object joins, never
    gets longer than the number of directed edges. *)
Theorem patch_detection_terminates (nb : gmap nat (list nat)) (index : list nat) :
  (∃ r, compute_patches nb index = Some r) ∧
  (∀ fuel n to_join neighbours, n ∈ to_join →
     while_not_in fuel nb n to_join neighbours = Some (Ok (to_join, neighbours))) ∧
  (∀ i weights, neighbors_of nb i = Ok weights →
     ∃ r, for_neighbours (edge_count nb) nb 0 [i] weights = Some r ∧
       ∀ to_join neighbours, r = Ok (to_join, neighbours) →
         NoDup to_join ∧ length neighbours ≤ edge_count nb).
Proof.
  split_and!.
  - apply patch_loop_terminates.
  - intros. by apply while_not_in_joined.
  - apply traversal_terminates.
Qed.

End PatchTermination.

(** ** Patch detection: the partition *)

Section PatchCorrectness.
Context (nb : gmap nat (list nat)).
Implicit Types (to_join neighbours : list nat) (patches : gmap nat nat).

Lemma connected_sym a b : symmetric nb → connected nb a b → connected nb b a.
Proof.
  intros Hsym Hab. induction Hab as [|a b c Hab _ IH]; [done|].
  etrans; [exact IH|]. apply rtc_once. by apply Hsym.
Qed.

Lemma edge_is_key a b : symmetric nb → edge nb a b → is_Some (nb !! b).
Proof. intros Hsym Hab. destruct (Hsym _ _ Hab) as (ws & -> & _). by eexists. Qed.

(** When the iterator is exhausted, [to_join] is closed under edges. *)
Lemma traversal_exit i0 i to_join neighbours :
  neighbours !! i = None →
  i0 ∈ to_join →
  (∀ b, b ∈ to_join → connected nb i0 b) →
  (∀ t m, t ∈ to_join → edge nb t m → m ∈ neighbours) →
  (∀ k n, k < i → neighbours !! k = Some n → n ∈ to_join) →
  ∀ b, b ∈ to_join ↔ connected nb i0 b.
Proof.
  intros Hend Hi0 Hreach Hclosed Hseen b. split; [apply Hreach|].
  revert b. apply (rtc_ind_r (λ b, b ∈ to_join)); [done|].
  intros y z Hy Hyz IH.
  apply (Hclosed _ _ IH) in Hyz.
  apply list_elem_of_lookup in Hyz as [k Hk].
  apply (Hseen k); [|done].
  apply lookup_ge_None in Hend. apply lookup_lt_Some in Hk. lia.
Qed.

Lemma for_neighbours_correct fuel i0 i to_join neighbours r :
  symmetric nb →
  for_neighbours fuel nb i to_join neighbours = Some r →
  i0 ∈ to_join →
  (∀ b, b ∈ to_join → connected nb i0 b) →
  (∀ m, m ∈ neighbours → connected nb i0 m ∧ is_Some (nb !! m)) →
  (∀ t m, t ∈ to_join → edge nb t m → m ∈ neighbours) →
  (∀ k n, k < i → neighbours !! k = Some n → n ∈ to_join) →
  ∃ to_join' neighbours', r = Ok (to_join', neighbours') ∧
    ∀ b, b ∈ to_join' ↔ connected nb i0 b.
Proof.
  intros Hsym. revert i to_join neighbours.
  induction fuel as [|fuel IH]; intros i to_join neighbours Hrun Hi0 Hreach Hns Hclosed Hseen.
  - simpl in Hrun. destruct (neighbours !! i) as [n|] eqn:Hi; [done|].
    injection Hrun as <-. do 2 eexists. split; [done|]. by eapply traversal_exit.
  - rewrite for_neighbours_unfold in Hrun.
    destruct (neighbours !! i) as [n|] eqn:Hi.
    2:{ injection Hrun as <-. do 2 eexists. split; [done|]. by eapply traversal_exit. }
    destruct (decide (n ∈ to_join)) as [Hin|Hnin].
    + rewrite while_not_in_joined in Hrun by done.
      apply (IH (S i) to_join neighbours); try done.
      intros k x Hk Hx. destruct (decide (k = i)) as [->|]; [congruence|].
      apply (Hseen k); [lia|done].
    + rewrite while_not_in_new in Hrun by done.
      destruct (Hns n) as [Hn [ws Hws]]; [by eapply list_elem_of_lookup_2|].
      unfold neighbors_of in Hrun. rewrite Hws in Hrun.
      apply (IH (S i) (to_join ++ [n]) (neighbours ++ ws)); try done.
      * apply elem_of_app. by left.
      * intros b [Hb|Hb]%elem_of_app; [by apply Hreach|].
        apply list_elem_of_singleton in Hb as ->. done.
      * intros m [Hm|Hm]%elem_of_app; [by apply Hns|].
        assert (edge nb n m) as Hedge by (by exists ws).
        split; [by eapply rtc_r|by eapply edge_is_key].
      * intros t m [Ht|Ht]%elem_of_app Htm.
        { apply elem_of_app. left. by eapply Hclosed. }
        apply list_elem_of_singleton in Ht as ->.
        destruct Htm as (ws' & Hws' & Hm). rewrite Hws in Hws'.
        injection Hws' as <-. apply elem_of_app. by right.
      * intros k x Hk Hx. apply lookup_lt_Some in Hi as Hlt.
        rewrite lookup_app_l in Hx by lia.
        destruct (decide (k = i)) as [->|].
        { rewrite Hi in Hx. injection Hx as <-.
          apply elem_of_app. right. by apply list_elem_of_singleton. }
        apply elem_of_app. left. apply (Hseen k); [lia|done].
Qed.

Lemma fill_lookup patches to_join jID a :
  fill patches to_join jID !! a =
    if bool_decide (a ∈ to_join) then Some jID else patches !! a.
Proof.
  unfold fill. revert patches.
  induction to_join as [|b to_join IH]; intros patches; cbn [foldl].
  - by rewrite bool_decide_false by set_solver.
  - rewrite IH. destruct (decide (a ∈ to_join)) as [Hin|Hnin].
    + rewrite !bool_decide_true; [done|set_solver|done].
    + rewrite (bool_decide_false (a ∈ to_join)) by done.
      destruct (decide (a = b)) as [->|Hne].
      * rewrite lookup_insert_eq, bool_decide_true; [done|set_solver].
      * rewrite lookup_insert_ne by done.
        rewrite bool_decide_false; [done|].
        intros [?|?]%elem_of_cons; done.
Qed.

(** One traversal adds one whole component under a fresh id. *)
Lemma patches_inv_fill patches jID i to_join :
  symmetric nb →
  patches_inv nb patches jID →
  (∀ b, b ∈ to_join ↔ connected nb i b) →
  patches_inv nb (fill patches to_join jID) (jID + 1).
Proof.
  intros Hsym (Hpos & Hid & Hsame & Hwhole) Hcomp. split_and!.
  - lia.
  - intros a j. rewrite fill_lookup. case_bool_decide.
    + intros [= <-]. lia.
    + intros Ha%Hid. lia.
  - intros a b ja jb. rewrite !fill_lookup.
    destruct (decide (a ∈ to_join)) as [Ha|Ha];
      destruct (decide (b ∈ to_join)) as [Hb|Hb];
      rewrite ?(bool_decide_true _ Ha), ?(bool_decide_false _ Ha),
        ?(bool_decide_true _ Hb), ?(bool_decide_false _ Hb).
    + intros [= <-] [= <-]. split; [|done]. intros _.
      apply Hcomp in Ha, Hb. etrans; [|exact Hb]. by apply connected_sym.
    + intros [= <-] Hjb%Hid. split; [lia|]. intros Hab.
      destruct Hb. apply Hcomp. apply Hcomp in Ha. by etrans.
    + intros Hja%Hid [= <-]. split; [lia|]. intros Hab.
      destruct Ha. apply Hcomp. apply Hcomp in Hb.
      etrans; [exact Hb|]. by apply connected_sym.
    + apply Hsame.
  - intros a b [j Ha] Hab. revert Ha. rewrite !fill_lookup.
    destruct (decide (a ∈ to_join)) as [Hin|Hnin].
    + intros _. rewrite (bool_decide_true (b ∈ to_join)); [done|].
      apply Hcomp. apply Hcomp in Hin. by etrans.
    + rewrite (bool_decide_false _ Hnin). intros Ha.
      case_bool_decide; [done|]. by eapply Hwhole.
Qed.



End PatchCorrectness.

Lemma symmetricb_correct nb : symmetricb nb = true → symmetric nb.
Proof.
  unfold symmetricb. intros Hall%bool_decide_eq_true a b (ws & Ha & Hb).
  specialize (Hall a ws Ha). rewrite Forall_forall in Hall. specialize (Hall b Hb).
  destruct (nb !! b) as [ws'|] eqn:Hws; simpl in Hall.
  - by exists ws'.
  - by apply elem_of_nil in Hall.
Qed.


Section PatchScenes.
#[local] Existing Instance isolated_cells.


End PatchScenes.

(** The patches of the six squares: the L-shaped group is patch 1, the
    isolated square patch 2, the pair patch 3. *)
Example six_squares_patches :
  compute_patches six_squares [0; 1; 2; 3; 4; 5] =
    Some (Ok (list_to_map [(0, 1); (1, 1); (2, 1); (3, 2); (4, 3); (5, 3)], 4)).
Proof. by vm_compute. Qed.

(** ** The distances of the adjacency list *)

Section EdgeCache.
Context (value_fn : nat → nat → result float).
Context (keys : list (nat * nat)).
Hypothesis keys_nodup : NoDup keys.
Hypothesis keys_symmetric : ∀ a b, (a, b) ∈ keys → (b, a) ∈ keys.
Hypothesis value_fn_not_sentinel : ∀ a b d, value_fn a b = Ok d → d ≠ Fin (-1).

Lemma stored_found (cur : list adj_row) m rm f n :
  NoDup (key <$> cur) → cur !! m = Some rm → key rm = (f, n) →
  stored cur f n = Ok (distance rm).
Proof.
  unfold stored. revert m. induction cur as [|r cur IH]; intros m Hnd Hm Hkey; [done|].
  apply NoDup_cons in Hnd as [Hfresh Hnd]. destruct m as [|m]; simpl in Hm.
  - injection Hm as ->. injection Hkey as Hf Hn.
    rewrite filter_cons_True by done. by rewrite filter_cons_True by done.
  - assert (key r ≠ (f, n)) as Hne.
    { intros Heq. apply Hfresh. rewrite Heq, <- Hkey.
      apply list_elem_of_fmap. exists rm. split; [done|].
      by eapply list_elem_of_lookup_2. }
    destruct (decide (focal r = f)) as [Hf|Hf].
    + rewrite filter_cons_True by done.
      rewrite filter_cons_False; [by eapply IH|].
      intros Hn. apply Hne. unfold key. by rewrite Hf, Hn.
    + rewrite filter_cons_False by done. by eapply IH.
Qed.

Lemma set_distance_keys cur i d : key <$> set_distance cur i d = key <$> cur.
Proof.
  unfold set_distance. apply list_eq. intros k.
  rewrite !list_lookup_fmap. destruct (decide (k = i)) as [->|Hne].
  - rewrite list_lookup_alter_eq. by destruct (cur !! i).
  - by rewrite list_lookup_alter_ne.
Qed.

Lemma set_distance_ne cur i d k : k ≠ i → set_distance cur i d !! k = cur !! k.
Proof. intros Hne. unfold set_distance. by rewrite list_lookup_alter_ne. Qed.

Lemma set_distance_eq cur i d r :
  set_distance cur i d !! i = Some r →
  distance r = d ∧ ∃ r0, cur !! i = Some r0 ∧ key r = key r0.
Proof.
  unfold set_distance. rewrite list_lookup_alter_eq.
  destruct (cur !! i) as [r0|]; [|done]. intros [= <-]. eauto.
Qed.

Lemma eqb_sentinel_false d : d ≠ Fin (-1) → Float.eqb d (Fin (-1)) = false.
Proof.
  intros Hd. destruct d as [x|]; [|done]. simpl. unfold Reqb.
  destruct (Req_dec_T x (-1)); [|done]. by subst.
Qed.

Lemma eqb_sentinel_true : Float.eqb (Fin (-1)) (Fin (-1)) = true.
Proof. simpl. unfold Reqb. by destruct (Req_dec_T (-1) (-1)). Qed.

Lemma key_position k m e : keys !! k = Some e → keys !! m = Some e → k = m.
Proof. intros. by eapply NoDup_lookup. Qed.

Lemma cache_step_inv i r st st' :
  cache_inv value_fn keys i st →
  keys !! i = Some (key r) →
  cache_step value_fn st i r = Ok st' →
  cache_inv value_fn keys (S i) st'.
Proof.
  destruct st as [cur computed].
  intros (Hkeys & Htodo & Hdone & Hcopy & Hnd & Hcomp & Hval) Hi Hstep. simpl in *.
  assert (∀ k x, cur !! k = Some x → keys !! k = Some (key x)) as Hcur.
  { intros k x Hk. by rewrite <- Hkeys, list_lookup_fmap, Hk. }
  destruct (list_elem_of_lookup_1 keys (swap_key (key r))) as [m Hm].
  { apply keys_symmetric. by eapply list_elem_of_lookup_2. }
  assert (∃ rm, cur !! m = Some rm ∧ key rm = swap_key (key r)) as (rm & Hrm & Hkm).
  { rewrite <- Hkeys, list_lookup_fmap in Hm.
    destruct (cur !! m) as [rm|]; simpl in Hm; [|done].
    exists rm. split; [reflexivity|congruence]. }
  rewrite (stored_found cur m rm) in Hstep; [|by rewrite Hkeys|done|done].
  simpl in Hstep.
  destruct (Float.eqb (distance rm) (Fin (-1))) eqn:Hsent.
  - assert (i ≤ m) as Hmi.
    { destruct (decide (i ≤ m)) as [|Hgt]; [done|].
      rewrite (Hdone m rm) in Hsent; [done|done|]. lia. }
    destruct (value_fn (focal r) (neighbor r)) as [d|] eqn:Hd; [|done].
    injection Hstep as <-. unfold cache_inv. cbn [fst snd].
    assert (∀ m', m' < i → keys !! m' ≠ Some (swap_key (key r))) as Hfirst.
    { intros m' Hlt Hm'. pose proof (key_position _ _ _ Hm Hm'). lia. }
    split_and!.
    + by rewrite set_distance_keys.
    + intros k x Hk Hle. rewrite set_distance_ne in Hk by lia. apply (Htodo k); [done|lia].
    + intros k x Hk Hlt. destruct (decide (k = i)) as [->|Hne].
      * apply set_distance_eq in Hk as [-> _].
        by eapply eqb_sentinel_false, value_fn_not_sentinel.
      * rewrite set_distance_ne in Hk by done. apply (Hdone k); [done|lia].
    + intros k m' rk rm' Hk Hm' Hlt Hlt' Hswap.
      rewrite set_distance_ne in Hm' by lia.
      destruct (decide (k = i)) as [->|Hne].
      * apply set_distance_eq in Hk as [_ (r0 & Hr0 & Hkr0)].
        apply Hcur in Hr0, Hm'. assert (key r0 = key r) as Hr0' by congruence.
        destruct (Hfirst m' Hlt). by rewrite Hm', Hswap, Hkr0, Hr0'.
      * rewrite set_distance_ne in Hk by done. apply (Hcopy k m'); [done|done|lia|lia|done].
    + apply NoDup_app. split_and!; [done| |apply NoDup_singleton].
      intros e He ->%list_elem_of_singleton.
      apply Hcomp in He as (k & Hlt & Hk & _).
      pose proof (key_position _ _ _ Hk Hi). lia.
    + intros e. rewrite elem_of_app, list_elem_of_singleton, Hcomp. split.
      * intros [(k & Hlt & Hk & Hkfirst)| ->].
        { exists k. split_and!; [lia|done|done]. }
        exists i. split_and!; [lia|done|done].
      * intros (k & Hlt & Hk & Hkfirst). destruct (decide (k = i)) as [->|Hne].
        { right. rewrite Hi in Hk. by injection Hk. }
        left. exists k. split_and!; [lia|done|done].
    + intros k x Hk Hlt Hin. destruct (decide (k = i)) as [->|Hne].
      * apply set_distance_eq in Hk as [-> (r0 & Hr0 & Hkr0)].
        apply Hcur in Hr0. assert (key x = key r) as [= -> ->] by congruence. done.
      * rewrite set_distance_ne in Hk by done. apply (Hval k); [done|lia|].
        apply elem_of_app in Hin as [Hin|Hin%list_elem_of_singleton]; [done|].
        apply Hcur in Hk. rewrite Hin in Hk. pose proof (key_position _ _ _ Hk Hi). lia.
  - assert (m < i) as Hmi.
    { destruct (decide (m < i)) as [|Hge]; [done|].
      rewrite (Htodo m rm) in Hsent; [|done|lia].
      by rewrite eqb_sentinel_true in Hsent. }
    injection Hstep as <-. unfold cache_inv. cbn [fst snd]. split_and!.
    + by rewrite set_distance_keys.
    + intros k x Hk Hle. rewrite set_distance_ne in Hk by lia. apply (Htodo k); [done|lia].
    + intros k x Hk Hlt. destruct (decide (k = i)) as [->|Hne].
      * by apply set_distance_eq in Hk as [-> _].
      * rewrite set_distance_ne in Hk by done. apply (Hdone k); [done|lia].
    + intros k m' rk rm' Hk Hm' Hlt Hlt' Hswap.
      rewrite set_distance_ne in Hm' by lia.
      destruct (decide (k = i)) as [->|Hne].
      * apply set_distance_eq in Hk as [-> (r0 & Hr0 & Hkr0)].
        apply Hcur in Hr0. assert (key r0 = key r) as Hr0' by congruence.
        assert (m' = m) as ->.
        { eapply key_position; [|exact Hm]. apply Hcur in Hm'.
          by rewrite Hm', Hswap, Hkr0, Hr0'. }
        rewrite Hrm in Hm'. by injection Hm' as ->.
      * rewrite set_distance_ne in Hk by done. apply (Hcopy k m'); [done|done|lia|lia|done].
    + done.
    + intros e. rewrite Hcomp. split.
      * intros (k & Hlt & Hk & Hkfirst). exists k. split_and!; [lia|done|done].
      * intros (k & Hlt & Hk & Hkfirst). destruct (decide (k = i)) as [->|Hne].
        { rewrite Hi in Hk. injection Hk as <-. by destruct (Hkfirst m Hmi). }
        exists k. split_and!; [lia|done|done].
    + intros k x Hk Hlt Hin. destruct (decide (k = i)) as [->|Hne].
      * apply set_distance_eq in Hk as [_ (r0 & Hr0 & Hkr0)].
        apply Hcur in Hr0. apply Hcomp in Hin as (k' & Hlt' & Hk' & _).
        assert (k' = i); [|lia]. eapply key_position; [exact Hk'|]. congruence.
      * rewrite set_distance_ne in Hk by done. apply (Hval k); [done|lia|done].
Qed.

Lemma cache_loop_inv i rows st st' :
  cache_inv value_fn keys i st →
  i ≤ length keys →
  key <$> rows = drop i keys →
  cache_loop value_fn i rows st = Ok st' →
  cache_inv value_fn keys (length keys) st'.
Proof.
  revert i st. induction rows as [|r rows IH]; intros i st Hinv Hle Hrows Hrun; simpl in Hrun.
  - injection Hrun as <-. symmetry in Hrows. apply drop_nil_inv in Hrows.
    by replace (length keys) with i by lia.
  - destruct (cache_step value_fn st i r) as [st1|] eqn:Hstep; [|done]. simpl in Hrun.
    assert (keys !! i = Some (key r)) as Hi.
    { replace i with (i + 0) by lia. by rewrite <- lookup_drop, <- Hrows. }
    apply lookup_lt_Some in Hi as Hlt.
    apply (IH (S i) st1); [by eapply cache_step_inv|lia| |done].
    rewrite (drop_S _ _ _ Hi) in Hrows. by injection Hrows.
Qed.

Lemma cache_inv_start : cache_inv value_fn keys 0 (with_distance keys, []).
Proof.
  assert (∀ k r, with_distance keys !! k = Some r → distance r = Fin (-1)) as Hall.
  { unfold with_distance. intros k r. rewrite list_lookup_fmap.
    destruct (keys !! k) as [[f n]|]; [|done]. by intros [= <-]. }
  split_and!; simpl.
  - unfold with_distance. rewrite <- list_fmap_compose.
    rewrite <- (list_fmap_id keys) at 2. apply list_fmap_ext. by intros _ [f n] _.
  - intros k r Hk _. by eapply Hall.
  - intros; lia.
  - intros; lia.
  - constructor.
  - intros e. split; [by intros ?%elem_of_nil|]. intros (k & ? & _). lia.
  - intros; lia.
Qed.

Lemma compute_distances_inv st :
  compute_distances value_fn (with_distance keys) = Ok st →
  cache_inv value_fn keys (length keys) st.
Proof.
  unfold compute_distances. apply cache_loop_inv; [apply cache_inv_start|lia|].
  simpl. apply cache_inv_start.
Qed.

(** C3. After the loop over the directed edge list of a symmetric graph,
    the distance stored for an edge equals the distance stored for its
    reverse. The distance is computed for exactly one direction of every
    pair: the direction that comes first in the list; the value stored for
    it is the computed one, and the direction that comes later copies it. *)
Theorem edge_cache_symmetric (cache : list adj_row) (computed : list (nat * nat)) :
  compute_distances value_fn (with_distance keys) = Ok (cache, computed) →
  key <$> cache = keys ∧
  (∀ a b, (a, b) ∈ keys →
     ∃ d, stored cache a b = Ok d ∧ stored cache b a = Ok d) ∧
  NoDup computed ∧
  (∀ a b, (a, b) ∈ keys → (a, b) ∈ computed ∨ (b, a) ∈ computed) ∧
  (∀ i j a b, i < j → keys !! i = Some (b, a) → keys !! j = Some (a, b) →
     (b, a) ∈ computed ∧ ((a, b) ∉ computed) ∧
     value_fn b a = stored cache b a ∧ stored cache a b = stored cache b a).
Proof.
  intros Hrun. apply compute_distances_inv in Hrun
    as (Hkeys & _ & _ & Hcopy & Hnd & Hcomp & Hval). simpl in *.
  assert (∀ k e, keys !! k = Some e → ∃ r, cache !! k = Some r ∧ key r = e) as Hrow.
  { intros k e. rewrite <- Hkeys, list_lookup_fmap.
    destruct (cache !! k) as [r|]; simpl; [|done]. intros [= <-]. by exists r. }
  assert (∀ k r a b, cache !! k = Some r → key r = (a, b) →
    stored cache a b = Ok (distance r)) as Hstored.
  { intros k r a b Hk Hr. eapply stored_found; [by rewrite Hkeys|done|done]. }
  assert (∀ k m a b rk rm, k < m → cache !! k = Some rk → cache !! m = Some rm →
    key rk = (b, a) → key rm = (a, b) → distance rm = distance rk) as Hlater.
  { intros k m a b rk rm Hlt Hk Hm Hrk Hrm.
    apply (Hcopy m k); [done|done|done| |by rewrite Hrk, Hrm].
    apply lookup_lt_Some in Hm. by rewrite <- Hkeys, length_fmap. }
  split_and!; [done| |done| |].
  - intros a b Hab. apply keys_symmetric in Hab as Hba.
    apply list_elem_of_lookup in Hab as [k Hk], Hba as [m Hm].
    destruct (Hrow _ _ Hk) as (rk & Hrk & Hkk), (Hrow _ _ Hm) as (rm & Hrm & Hkm).
    exists (distance rk). split; [by eapply Hstored|].
    rewrite (Hstored _ _ _ _ Hrm Hkm). f_equal.
    destruct (Nat.lt_trichotomy k m) as [Hlt|[->|Hgt]].
    + by eapply Hlater.
    + congruence.
    + symmetry. by eapply Hlater.
  - intros a b Hab. apply keys_symmetric in Hab as Hba.
    apply list_elem_of_lookup in Hab as [k Hk], Hba as [m Hm].
    destruct (decide (k ≤ m)) as [Hle|Hgt].
    + left. apply Hcomp. exists k. split_and!; [by eapply lookup_lt_Some|done|].
      intros m' Hlt Hm'. pose proof (key_position _ _ _ Hm Hm'). lia.
    + right. apply Hcomp. exists m. split_and!; [by eapply lookup_lt_Some|done|].
      intros k' Hlt Hk'. pose proof (key_position _ _ _ Hk Hk'). lia.
  - intros i j a b Hlt Hi Hj.
    destruct (Hrow _ _ Hi) as (ri & Hri & Hki), (Hrow _ _ Hj) as (rj & Hrj & Hkj).
    assert ((b, a) ∈ computed) as Hin.
    { apply Hcomp. exists i. split_and!; [by eapply lookup_lt_Some|done|].
      intros k' Hlt' Hk'. pose proof (key_position _ _ _ Hj Hk'). lia. }
    split_and!; [done| | |].
    + intros (k & _ & Hk & Hfirst)%Hcomp.
      pose proof (key_position _ _ _ Hj Hk) as <-. by destruct (Hfirst i Hlt).
    + rewrite (Hstored _ _ _ _ Hri Hki).
      assert (focal ri = b ∧ neighbor ri = a) as [<- <-] by (by injection Hki).
      apply (Hval i); [done|by eapply lookup_lt_Some|]. by rewrite Hki.
    + rewrite (Hstored _ _ _ _ Hri Hki), (Hstored _ _ _ _ Hrj Hkj). f_equal.
      by eapply Hlater.
Qed.

End EdgeCache.

Section EdgeCacheScene.
Local Open Scope R_scope.

Ltac run_stored :=
  unfold stored;
  repeat first
    [ rewrite filter_cons_True by done
    | rewrite filter_cons_False by (simpl; lia)
    | rewrite filter_nil ];
  cbn [mbind result_bind distance].

(** Two cells 0 and 1 that touch, with buildings 5 apart: the distance is
    computed for the edge (0,1) and copied for the edge (1,0). *)
Example two_cells_distances :
  compute_distances (λ _ _, Ok (Fin 5)) (with_distance [(0, 1); (1, 0)])%nat =
    Ok ([mkAdj 0 1 (Fin 5); mkAdj 1 0 (Fin 5)], [(0, 1)])%nat.
Proof.
  unfold compute_distances. cbn -[Float.eqb stored]. run_stored.
  rewrite eqb_sentinel_true. cbn -[Float.eqb stored]. run_stored.
  rewrite eqb_sentinel_false; [done|]. intros [=]. lra.
Qed.

(** Witness of C3: the two cells. *)
Lemma edge_cache_symmetric_witness :
  ∃ d, stored [mkAdj 0 1 (Fin 5); mkAdj 1 0 (Fin 5)] 0 1 = Ok d ∧
       stored [mkAdj 0 1 (Fin 5); mkAdj 1 0 (Fin 5)] 1 0 = Ok d.
Proof.
  destruct (edge_cache_symmetric (λ _ _, Ok (Fin 5)) [(0, 1); (1, 0)]%nat) with
    (cache := [mkAdj 0 1 (Fin 5); mkAdj 1 0 (Fin 5)]) (computed := [(0, 1)]%nat)
    as (_ & Hsym & _).
  - apply NoDup_cons. split; [|apply NoDup_singleton].
    intros [=]%list_elem_of_singleton.
  - intros a b Hab. rewrite !elem_of_cons in Hab |- *.
    destruct Hab as [[= -> ->]|[[= -> ->]|Hab]]; [by right; left|by left|].
    by apply elem_of_nil in Hab.
  - intros a b d [= <-] [=]. lra.
  - exact two_cells_distances.
  - apply (Hsym 0%nat 1%nat). by left.
Defined.

End EdgeCacheScene.

(** ** One value for every row *)

Section SeriesShape.
Context `{GeometryProvider} `{!ContiguityBuilder}.

Lemma length_iterrows (df : DataFrame) : length (iterrows df) = nrows df.
Proof. unfold iterrows, nrows. apply length_imap. Qed.

Lemma for_each_rows {B} (body : nat * row → result B) (df : DataFrame) ys :
  for_each body (iterrows df) = Ok ys → length ys = nrows df.
Proof. intros Hrun. by rewrite (for_each_length _ _ _ Hrun), length_iterrows. Qed.

Lemma set_column_index (df df' : DataFrame) c values :
  set_column df c values = Ok df' → df_index df' = df_index df.
Proof. unfold set_column. case_bool_decide; [|done]. by intros [= <-]. Qed.

Lemma drop_column_index (df df' : DataFrame) c :
  drop_column df c = Ok df' → df_index df' = df_index df.
Proof. unfold drop_column. destruct (has_column df c); [|done]. by intros [= <-]. Qed.

Lemma fold_each_prefix {St A} (f : St → A → result St) (P : St → list A → Prop)
    xs s s' pre :
  (∀ s x s' pre, f s x = Ok s' → P s pre → P s' (pre ++ [x])) →
  fold_each f s xs = Ok s' → P s pre → P s' (pre ++ xs).
Proof.
  intros Hstep. revert s pre. induction xs as [|x xs IH]; intros s pre Hrun Hs; simpl in *.
  - injection Hrun as <-. by rewrite app_nil_r.
  - destruct (f s x) as [s1|] eqn:Hx; simpl in Hrun; [|done].
    rewrite (cons_middle x pre xs), app_assoc. apply (IH s1); [done|]. by eapply Hstep.
Qed.

Lemma iterrows_lookup (df : DataFrame) i label (r : row) :
  iterrows df !! i = Some (label, r) → df_index df !! i = Some label ∧ r = row_at df i.
Proof.
  unfold iterrows. rewrite list_lookup_imap.
  destruct (df_index df !! i); simpl; [|done]. by intros [= <- <-].
Qed.

Lemma for_each_row_by_row (body : nat → row → result float) (df : DataFrame) series :
  for_each (λ '(index, r), body index r) (iterrows df) = Ok series →
  row_by_row df body series.
Proof.
  intros Hrun. split; [by eapply for_each_rows|].
  intros i v Hi. apply for_each_Ok in Hrun.
  destruct (Forall2_lookup_r _ _ _ _ _ Hrun Hi) as ([label r] & Hrow & Hv).
  apply iterrows_lookup in Hrow as [Hl ->]. by exists label.
Qed.

(** The guard [if len(neighbours) > 0] never skips a row: the focal id
    has just been appended to [neighbours]. *)
Lemma mean_interbuilding_row_appends tessellation adj_list st r st' :
  mean_interbuilding_row tessellation adj_list st r = Ok st' →
  ∃ v, st'.2 = st.2 ++ [v].
Proof.
  destruct st as [higher results_list]. unfold mean_interbuilding_row.
  destruct (matching_cell tessellation "uID" r) as [id|]; simpl; [|done].
  destruct (neighbors_of higher id) as [neighbours|]; simpl; [|done].
  rewrite bool_decide_true by (rewrite length_app; simpl; lia).
  intros [= <-]. by eexists.
Qed.

(** The loop of [mean_interbuilding_distance]: the value at position [i]
    is the one that the body appends at row [i], to the [i] values of the
    rows before. *)
Lemma mean_interbuilding_loop tessellation adj_list (df : DataFrame) higher0 higher results_list :
  fold_each (λ st '(index, r), mean_interbuilding_row tessellation adj_list st r)
    (higher0, []) (iterrows df) = Ok (higher, results_list) →
  length results_list = nrows df ∧
  ∀ i v, results_list !! i = Some v →
    ∃ label st st', df_index df !! i = Some label ∧
      mean_interbuilding_row tessellation adj_list st (row_at df i) = Ok st' ∧
      length st.2 = i ∧ st'.2 = st.2 ++ [v].
Proof.
  intros Hloop.
  assert (length results_list = length (iterrows df) ∧
    ∀ i v, results_list !! i = Some v →
      ∃ label r st st', iterrows df !! i = Some (label, r) ∧
        mean_interbuilding_row tessellation adj_list st r = Ok st' ∧
        length st.2 = i ∧ st'.2 = st.2 ++ [v]) as [Hlen Hrows].
  { change results_list with (higher, results_list).2.
    change (iterrows df) with ([] ++ iterrows df).
    eapply (fold_each_prefix _ (λ st pre,
      length st.2 = length pre ∧
      ∀ i v, st.2 !! i = Some v →
        ∃ label r st0 st1, pre !! i = Some (label, r) ∧
          mean_interbuilding_row tessellation adj_list st0 r = Ok st1 ∧
          length st0.2 = i ∧ st1.2 = st0.2 ++ [v])); [|exact Hloop|].
    - intros st [label r] st1 pre Hstep [Hlen Hinv].
      destruct (mean_interbuilding_row_appends _ _ _ _ _ Hstep) as [w Hw].
      split; [rewrite Hw, !length_app; simpl; lia|].
      intros i v Hi. rewrite Hw in Hi.
      destruct (decide (i < length st.2)) as [Hlt|Hge].
      + rewrite lookup_app_l in Hi by done.
        destruct (Hinv i v Hi) as (l & r0 & st0 & st0' & Hpre & Hrest).
        exists l, r0, st0, st0'. split; [|done].
        rewrite lookup_app_l; [done|]. by eapply lookup_lt_Some.
      + rewrite lookup_app_r in Hi by lia.
        destruct (i - length st.2) as [|k] eqn:Hk; simpl in Hi; [|done].
        injection Hi as <-. assert (i = length st.2) as -> by lia.
        exists label, r, st, st1. split_and!; [|done|done|done].
        rewrite Hlen, lookup_app_r by lia. by rewrite Nat.sub_diag.
    - split; [done|]. intros i v Hi. done. }
  split; [by rewrite Hlen, length_iterrows|].
  intros i v Hi. destruct (Hrows i v Hi) as (label & r & st & st' & Hrow & Hrest).
  apply iterrows_lookup in Hrow as [Hl ->]. by exists label, st, st'.
Qed.

(** The loop of [shared_walls_ratio] runs over the table to which the
    columns [mm_p] and [mm_uid] have been added, with the spatial index of
    the table as it was passed. *)
Lemma shared_walls_ratio_rows (objects objects' : DataFrame) unique_id perimeters series :
  shared_walls_ratio objects unique_id perimeters = Ok (objects', series) →
  ∃ working index_values perimeters',
    sindex objects = Ok index_values ∧
    df_index working = df_index objects ∧
    (∀ c, c ≠ "mm_p" → c ≠ "mm_uid" → df_data working !! c = df_data objects !! c) ∧
    row_by_row working (shared_walls_row working index_values perimeters') series.
Proof.
  unfold shared_walls_ratio.
  destruct (sindex objects) as [index_values|]; simpl; [|done].
  destruct (match perimeters with
            | None => _ | Some (ByName c) => _ | Some (ByValues values) => _
            end) as [[objects1 perimeters']|] eqn:Hp; simpl; [|done].
  assert (df_index objects1 = df_index objects ∧
    ∀ c, c ≠ "mm_p" → df_data objects1 !! c = df_data objects !! c) as [Hi1 Hd1].
  { destruct perimeters as [[c|values]|]; simpl in Hp.
    - by injection Hp as <- <-.
    - unfold set_column in Hp. case_bool_decide; simpl in Hp; [|done].
      injection Hp as <- <-. split; [done|]. intros c Hc. simpl.
      by rewrite lookup_insert_ne.
    - destruct (for_each _ index_values) as [lengths|]; simpl in Hp; [|done].
      unfold set_column in Hp. case_bool_decide; simpl in Hp; [|done].
      injection Hp as <- <-. split; [done|]. intros c Hc. simpl.
      by rewrite lookup_insert_ne. }
  destruct (match unique_id with ByName c => _ | ByValues values => _ end)
    as [[objects2 unique_id']|] eqn:Hu; simpl; [|done].
  assert (df_index objects2 = df_index objects1 ∧
    ∀ c, c ≠ "mm_uid" → df_data objects2 !! c = df_data objects1 !! c) as [Hi2 Hd2].
  { destruct unique_id as [c|values]; simpl in Hu.
    - by injection Hu as <- <-.
    - unfold set_column in Hu. case_bool_decide; simpl in Hu; [|done].
      injection Hu as <- <-. split; [done|]. intros c Hc. simpl.
      by rewrite lookup_insert_ne. }
  destruct (for_each _ (iterrows objects2)) as [results_list|] eqn:Hloop; simpl; [|done].
  destruct (if has_column objects2 "mm_p" then _ else _) as [objects3|]; simpl; [|done].
  intros [= <- <-].
  apply (for_each_row_by_row (shared_walls_row objects2 index_values perimeters'))
    in Hloop.
  exists objects2, index_values, perimeters'. split_and!; [done|by rewrite Hi2|..|done].
  intros c Hc1 Hc2. by rewrite Hd2, Hd1.
Qed.

(** The second loop of [neighbouring_street_orientation_deviation] runs
    over the table that carries the orientations of the first loop in its
    column [tmporient]; this is the table the caller is left with. *)
Lemma street_deviation_rows (objects objects' : DataFrame) series :
  neighbouring_street_orientation_deviation objects = Ok (objects', series) →
  ∃ first index_values,
    for_each (λ '(index, r), street_orientation_row r) (iterrows objects) = Ok first ∧
    objects' = set_column_series objects "tmporient" first ∧
    sindex objects' = Ok index_values ∧
    row_by_row objects' (street_deviation_row objects' index_values) series.
Proof.
  unfold neighbouring_street_orientation_deviation.
  destruct (for_each _ (iterrows objects)) as [first|]; simpl; [|done].
  destruct (sindex _) as [index_values|] eqn:Hs; simpl; [|done].
  destruct (for_each _ (iterrows _)) as [results_list|] eqn:Hloop; simpl; [|done].
  destruct (drop_column _ _); simpl; [|done].
  intros [= <- <-]. exists first, index_values. split_and!; [done..|].
  by apply (for_each_row_by_row (street_deviation_row _ index_values)).
Qed.

(** C8. Every metric that returns gives a series with as many values as the
    table has rows, and the value at position [i] is the one that the body
    of its loop computes from the row at position [i] of the table, whatever
    the labels of the rows are. [shared_walls_ratio] and
    [neighbouring_street_orientation_deviation] read the rows of the table
    to which they have added their columns.
    [mean_interbuilding_distance] appends a value at every row. *)
Theorem one_value_per_row (objects : DataFrame) :
  (∀ series, orientation objects = Ok series →
     row_by_row objects (λ _ r, orientation_row r) series) ∧
  (∀ unique_id perimeters objects' series,
     shared_walls_ratio objects unique_id perimeters = Ok (objects', series) →
     length series = nrows objects ∧
     ∃ working index_values perimeters',
       df_index working = df_index objects ∧
       (∀ c, c ≠ "mm_p" → c ≠ "mm_uid" → df_data working !! c = df_data objects !! c) ∧
       row_by_row working (shared_walls_row working index_values perimeters') series) ∧
  (∀ streets orientation_column network_id_column series,
     street_alignment objects streets orientation_column network_id_column = Ok series →
     row_by_row objects
       (λ _ r, street_alignment_row streets orientation_column network_id_column r)
       series) ∧
  (∀ tessellation orientation_column cell_orientation_column unique_id series,
     cell_alignment objects tessellation orientation_column cell_orientation_column
       unique_id = Ok series →
     row_by_row objects
       (λ _ r, cell_alignment_row tessellation orientation_column
                 cell_orientation_column unique_id r)
       series) ∧
  (∀ orientation_column tessellation weights_matrix series,
     alignment objects orientation_column tessellation weights_matrix = Ok series →
     row_by_row objects
       (λ _ r, alignment_row objects orientation_column tessellation
                 (match weights_matrix with
                  | None => Queen_from_dataframe tessellation
                  | Some w => w
                  end) r)
       series) ∧
  (∀ tessellation weights_matrix series,
     neighbour_distance objects tessellation weights_matrix = Ok series →
     row_by_row objects
       (λ _ r, neighbour_distance_row objects tessellation
                 (match weights_matrix with
                  | None => Queen_from_dataframe tessellation
                  | Some w => w
                  end) r)
       series) ∧
  (∀ tessellation weights_matrix weights_matrix_higher order series higher,
     mean_interbuilding_distance objects tessellation weights_matrix
       weights_matrix_higher order = Ok (series, higher) →
     length series = nrows objects ∧
     ∃ adj_list computed,
       compute_distances (interbuilding_distance objects tessellation)
         (with_distance (to_adjlist
            (match weights_matrix with
             | None => Queen_from_dataframe tessellation
             | Some w => w
             end))) = Ok (adj_list, computed) ∧
       ∀ i v, series !! i = Some v →
         ∃ label st st', df_index objects !! i = Some label ∧
           mean_interbuilding_row tessellation adj_list st (row_at objects i) = Ok st' ∧
           length st.2 = i ∧ st'.2 = st.2 ++ [v]) ∧
  (∀ tessellation adj_list st r st',
     mean_interbuilding_row tessellation adj_list st r = Ok st' →
     ∃ v, st'.2 = st.2 ++ [v]) ∧
  (∀ objects' series,
     neighbouring_street_orientation_deviation objects = Ok (objects', series) →
     df_index objects' = df_index objects ∧
     (∀ c, c ≠ "tmporient" → df_data objects' !! c = df_data objects !! c) ∧
     ∃ index_values,
       row_by_row objects' (street_deviation_row objects' index_values) series) ∧
  (∀ tessellation weights_matrix weights_matrix_higher order unique_id series,
     building_adjacency objects tessellation weights_matrix weights_matrix_higher
       order unique_id = Some (Ok series) →
     ∃ patches jID,
       compute_patches
         (neighbors (match weights_matrix with
                     | None => Queen_from_dataframe objects
                     | Some w => w
                     end))
         (df_index objects) = Some (Ok (patches, jID)) ∧
       row_by_row objects
         (building_adjacency_row objects tessellation
            (match weights_matrix_higher with
             | None => Queen_higher tessellation order
             | Some w => w
             end) unique_id patches)
         series).
Proof.
  split_and!.
  - intros series Hrun. by apply (for_each_row_by_row (λ _ r, orientation_row r)).
  - intros unique_id perimeters objects' series Hrun.
    destruct (shared_walls_ratio_rows _ _ _ _ _ Hrun)
      as (working & index_values & perimeters' & _ & Hindex & Hdata & Hrows).
    split.
    + destruct Hrows as [Hlen _]. unfold nrows in *. by rewrite Hlen, Hindex.
    + by exists working, index_values, perimeters'.
  - intros streets orientation_column network_id_column series Hrun.
    by apply (for_each_row_by_row (λ _ r, street_alignment_row _ _ _ r)).
  - intros tessellation orientation_column cell_orientation_column unique_id series Hrun.
    by apply (for_each_row_by_row (λ _ r, cell_alignment_row _ _ _ _ r)).
  - intros orientation_column tessellation weights_matrix series Hrun.
    by apply (for_each_row_by_row (λ _ r, alignment_row _ _ _ _ r)).
  - intros tessellation weights_matrix series Hrun.
    by apply (for_each_row_by_row (λ _ r, neighbour_distance_row _ _ _ r)).
  - intros tessellation weights_matrix weights_matrix_higher order series higher.
    unfold mean_interbuilding_distance.
    destruct (compute_distances _ _) as [[adj_list computed]|] eqn:Hcache; simpl; [|done].
    destruct (fold_each _ _ _) as [[higher' results_list]|] eqn:Hloop; simpl; [|done].
    intros [= <- <-].
    apply mean_interbuilding_loop in Hloop as [Hlen Hrows].
    split; [done|]. by exists adj_list, computed.
  - apply mean_interbuilding_row_appends.
  - intros objects' series Hrun.
    destruct (street_deviation_rows _ _ _ Hrun) as (first & index_values & _ & -> & _ & Hrows).
    split_and!; [done| |by exists index_values].
    intros c Hc. simpl. by rewrite lookup_insert_ne.
  - intros tessellation weights_matrix weights_matrix_higher order unique_id series.
    unfold building_adjacency.
    destruct (compute_patches _ _) as [[[patches jID]|]|] eqn:Hpatches; [|done..].
    intros [= Hloop]. exists patches, jID. split; [done|].
    by apply (for_each_row_by_row (building_adjacency_row _ _ _ _ patches)).
Qed.

End SeriesShape.

(** ** The identifier column *)

Section IdentifierColumn.
Context `{GeometryProvider} `{!ContiguityBuilder}.

Lemma column_missing (df : DataFrame) c :
  has_column df c = false → column df c = Raise (KeyError (Column c)).
Proof.
  unfold has_column, column. intros Hc%bool_decide_eq_false.
  destruct (df_data df !! c); [|done]. destruct Hc. by eexists.
Qed.

Lemma getitem_missing (df : DataFrame) pos c :
  has_column df c = false → getitem (row_at df pos) c = Raise (KeyError (Column c)).
Proof.
  unfold has_column, getitem, row_at. intros Hc%bool_decide_eq_false.
  rewrite lookup_omap. destruct (df_data df !! c); [|done]. destruct Hc. by eexists.
Qed.

Lemma getitem_cases (r : row) c :
  (∃ v, getitem r c = Ok v) ∨ getitem r c = Raise (KeyError (Column c)).
Proof. unfold getitem. destruct (r !! c) as [v|]; [left; by exists v|by right]. Qed.

Lemma iterrows_cons (df : DataFrame) :
  0 < nrows df → ∃ label rest, iterrows df = (label, row_at df 0) :: rest.
Proof.
  unfold nrows, iterrows. destruct (df_index df) as [|label index]; simpl; [lia|].
  intros _. by do 2 eexists.
Qed.

Lemma matching_cell_missing (objects tessellation : DataFrame) pos :
  has_column tessellation "uID" = false ∨ has_column objects "uID" = false →
  matching_cell tessellation "uID" (row_at objects pos) = Raise (KeyError (Column "uID")).
Proof.
  intros Hmiss. unfold matching_cell.
  destruct (has_column tessellation "uID") eqn:Ht.
  - destruct Hmiss as [?|Ho]; [done|].
    unfold has_column in Ht. apply bool_decide_eq_true in Ht as [ids Hids].
    unfold column. rewrite Hids. simpl. by rewrite getitem_missing.
  - by rewrite column_missing.
Qed.

Lemma stored_with_distance adj a b :
  (a, b) ∈ adj → stored (with_distance adj) a b = Ok (Fin (-1)).
Proof.
  unfold stored. induction adj as [|[f n] adj IH]; intros Hin; [by apply elem_of_nil in Hin|].
  simpl. destruct (decide (f = a)) as [->|Hf].
  - rewrite filter_cons_True by done. destruct (decide (n = b)) as [->|Hn].
    + by rewrite filter_cons_True.
    + rewrite filter_cons_False by done. apply IH.
      apply elem_of_cons in Hin as [[=]|Hin]; [done|done].
  - rewrite filter_cons_False by done. apply IH.
    apply elem_of_cons in Hin as [[=]|Hin]; [done|done].
Qed.

Lemma interbuilding_distance_missing (objects tessellation : DataFrame) a b :
  has_column tessellation "uID" = false ∨ has_column objects "uID" = false →
  a < nrows tessellation →
  interbuilding_distance objects tessellation a b = Raise (KeyError (Column "uID")).
Proof.
  intros Hmiss Ha.
  assert (iloc tessellation a = Ok (row_at tessellation a)) as Hiloc.
  { unfold iloc. by rewrite bool_decide_true. }
  unfold interbuilding_distance. rewrite Hiloc. simpl.
  destruct (has_column tessellation "uID") eqn:Ht.
  - destruct Hmiss as [?|Ho]; [done|].
    destruct (getitem_cases (row_at tessellation a) "uID") as [[v ->]| ->]; [|done].
    simpl. by rewrite column_missing.
  - by rewrite getitem_missing.
Qed.

(** C10, as the code has it. [alignment], [neighbour_distance] and
    [mean_interbuilding_distance] read the column ['uID'] of both tables and
    have no parameter for its name. When the object table has at least one
    row and one of the two tables has no column ['uID'], the first two raise
    the key error of that column, and so does the third when the edge list
    of the order-1 graph has the reverse of each of its edges and its focal
    ids are row positions of the tessellation. *)
Theorem uID_column_required (objects tessellation : DataFrame) :
  0 < nrows objects →
  has_column tessellation "uID" = false ∨ has_column objects "uID" = false →
  (∀ orientation_column weights_matrix,
     alignment objects orientation_column tessellation weights_matrix =
       Raise (KeyError (Column "uID"))) ∧
  (∀ weights_matrix,
     neighbour_distance objects tessellation weights_matrix =
       Raise (KeyError (Column "uID"))) ∧
  (∀ weights_matrix weights_matrix_higher order,
     let w := match weights_matrix with
              | None => Queen_from_dataframe tessellation
              | Some w => w
              end in
     (∀ a b, (a, b) ∈ to_adjlist w →
        (b, a) ∈ to_adjlist w ∧ a < nrows tessellation) →
     mean_interbuilding_distance objects tessellation weights_matrix
       weights_matrix_higher order = Raise (KeyError (Column "uID"))).
Proof.
  intros Hrows Hmiss. destruct (iterrows_cons objects Hrows) as (label & rest & Hiter).
  split_and!.
  - intros orientation_column weights_matrix. unfold alignment. rewrite Hiter.
    eapply for_each_Raise; [done|]. unfold alignment_row.
    by rewrite matching_cell_missing.
  - intros weights_matrix. unfold neighbour_distance. rewrite Hiter.
    eapply for_each_Raise; [done|]. unfold neighbour_distance_row.
    by rewrite matching_cell_missing.
  - intros weights_matrix weights_matrix_higher order w Hadj.
    unfold mean_interbuilding_distance. fold w.
    destruct (to_adjlist w) as [|[a b] adj] eqn:Hlist.
    + simpl. rewrite Hiter. simpl. by rewrite matching_cell_missing.
    + destruct (Hadj a b) as [Hrev Ha]; [by left|].
      unfold compute_distances. simpl.
      change (mkAdj a b (Fin (-1)) :: with_distance adj)
        with (with_distance ((a, b) :: adj)).
      rewrite (stored_with_distance _ b a Hrev). cbn -[Float.eqb].
      rewrite eqb_sentinel_true.
      by rewrite interbuilding_distance_missing.
Qed.

End IdentifierColumn.

Section IdentifierColumnScenes.
#[local] Existing Instance isolated_cells.

(** C10, counterexample. The object table has the identifier column [id]
    and no row: [alignment], [neighbour_distance] and
    [mean_interbuilding_distance] return an empty series and raise
    nothing. *)
Lemma no_object_no_error :
  alignment (no_object upright_ring) "orientation" (renamed_object upright_ring)
    (Some lone_cell) = Ok [] ∧
  neighbour_distance (no_object upright_ring) (renamed_object upright_ring)
    (Some lone_cell) = Ok [] ∧
  mean_interbuilding_distance (no_object upright_ring) (renamed_object upright_ring)
    (Some lone_cell) (Some lone_cell) 3 = Ok ([], lone_cell).
Proof. split_and!; by vm_compute. Qed.

(** Witness of C10: one object, identifier column [id]. *)
Lemma uID_column_required_witness :
  alignment (renamed_object upright_ring) "orientation" (renamed_object upright_ring)
    None =
    Raise (KeyError (Column "uID")).
Proof.
  apply (uID_column_required (renamed_object upright_ring) (renamed_object upright_ring)).
  - unfold nrows. simpl. lia.
  - left. by vm_compute.
Defined.

End IdentifierColumnScenes.

(** ** Objects without neighbours *)

Section EmptyNeighbourhood.
Context `{GeometryProvider} `{!ContiguityBuilder}.
Local Open Scope R_scope.




















End EmptyNeighbourhood.

Section EmptyNeighbourhoodScenes.
#[local] Existing Instance isolated_cells.



End EmptyNeighbourhoodScenes.

(** ** The focal object in its own neighbour set *)

Section FocalObject.
Context `{GeometryProvider}.

Lemma list_remove_NoDup x l l' : NoDup l → list_remove x l = Ok l' → x ∉ l'.
Proof.
  revert l'. induction l as [|y l IH]; intros l' Hnd Hrm; simpl in Hrm; [done|].
  apply NoDup_cons in Hnd as [Hy Hnd]. case_bool_decide as Hxy.
  - injection Hrm as <-. by subst.
  - destruct (list_remove x l) as [l1|] eqn:Hl; simpl in Hrm; [|done].
    injection Hrm as <-. rewrite not_elem_of_cons. split; [congruence|by apply IH].
Qed.

Lemma sindex_intersection_NoDup (index_values : list value) g :
  NoDup (sindex_intersection index_values g).
Proof.
  unfold sindex_intersection.
  assert (∀ (l : list value) k, NoDup (imap (λ i v, (k + i, v)) l).*1) as Himap.
  { induction l as [|v l IH]; intros k; simpl; [constructor|].
    apply NoDup_cons. split.
    - rewrite list_elem_of_fmap. intros ([i v'] & Heq & Hin). simpl in Heq.
      apply elem_of_lookup_imap in Hin as (j & w & [= -> ->] & _). lia.
    - specialize (IH (S k)). erewrite imap_ext; [exact IH|].
      intros i w _. simpl. f_equal. lia. }
  specialize (Himap index_values 0). simpl in Himap.
  eapply sublist_NoDup; [exact Himap|].
  apply fmap_sublist, sublist_filter.
Qed.

(** In [shared_walls_ratio] the focal object is not among the neighbours
    over which the intersections are summed. *)
Lemma bbox_neighbors_exclude_focal (index_values : list value) index (r : row) ns :
  bbox_neighbors index_values index r = Ok ns → index ∉ ns.
Proof.
  unfold bbox_neighbors. destruct (geometry_of r) as [g|]; simpl; [|done].
  apply list_remove_NoDup, sindex_intersection_NoDup.
Qed.

(** In [neighbouring_street_orientation_deviation] the focal segment is
    always among the neighbours over which the deviations are averaged:
    [neighbors.drop([index])] changes nothing, and raises when the focal
    segment is not in the table. *)
Lemma street_neighbors_include_focal (objects : DataFrame) index_values index
    (r : row) neighbors :
  street_neighbors objects index_values index r = Ok neighbors →
  index ∈ df_index neighbors.
Proof.
  unfold street_neighbors.
  destruct (geometry_of r) as [g|]; simpl; [|done].
  destruct (iloc_list _ _) as [possible|]; simpl; [|done].
  destruct (column possible "geometry") as [geoms|]; simpl; [|done].
  destruct (for_each _ geoms) as [mask|]; simpl; [|done].
  unfold drop_row. case_bool_decide as Hin; simpl; [|done].
  by intros [= <-].
Qed.

End FocalObject.

Section StreetScene.
Local Open Scope R_scope.

Lemma azimuth_north : _azimuth (Point 0 0) (Point 0 1) = 180.
Proof.
  unfold _azimuth, Numpy.arctan2. simpl.
  replace (1 - 0) with 1 by lra. replace (0 - 0) with 0 by lra.
  assert (Rgtb 1 0 = true) as -> by (apply Rgtb_true; lra).
  replace (0 / 1) with 0 by lra. rewrite atan_0.
  destruct (Rgtb 0 0) eqn:Hgt; [apply Rgtb_true in Hgt; lra|].
  unfold Numpy.degrees. lra.
Qed.

Lemma azimuth_north_east : _azimuth (Point 0 1) (Point 1 2) = 45.
Proof.
  unfold _azimuth, Numpy.arctan2. simpl.
  replace (2 - 1) with 1 by lra. replace (1 - 0) with 1 by lra.
  assert (Rgtb 1 0 = true) as -> by (apply Rgtb_true; lra).
  replace (1 / 1) with 1 by lra. rewrite atan_1.
  pose proof PI_RGT_0.
  assert (Rgtb (PI / 4) 0 = true) as -> by (apply Rgtb_true; lra).
  unfold Numpy.degrees. field. lra.
Qed.

Lemma fold_45 : fold 45 = 45.
Proof.
  unfold fold, Rgtb, Rgeb.
  repeat (destruct (Rgt_dec _ _); destruct (Rge_dec _ _); simpl; try lra).
Qed.

Lemma street_orientations :
  for_each (λ '(index, r), street_orientation_row r) (iterrows street_table) =
    Ok [Fin 0; Fin 45].
Proof.
  assert (for_each (λ '(index, r), street_orientation_row r) (iterrows street_table) =
    Ok [Fin (fold (_azimuth (Point 0 0) (Point 0 1)));
        Fin (fold (_azimuth (Point 0 1) (Point 1 2)))]) as -> by (by vm_compute).
  by rewrite azimuth_north, azimuth_north_east, fold_180, fold_45.
Qed.

Lemma street_deviations o0 o1 :
  for_each (λ '(index, r),
      street_deviation_row (oriented_streets o0 o1)
        [VGeom (0%nat : @geometry two_streets); VGeom (1%nat : @geometry two_streets)] index r)
    (iterrows (oriented_streets o0 o1)) =
    Ok [Float.mean [Float.abs (Float.sub (Fin o0) (Fin o0));
                    Float.abs (Float.sub (Fin o1) (Fin o0))];
        Float.mean [Float.abs (Float.sub (Fin o0) (Fin o1));
                    Float.abs (Float.sub (Fin o1) (Fin o1))]].
Proof. by vm_compute. Qed.

(** The call on the two streets: what it returns, and the table it leaves
    to the caller. *)
Lemma two_streets_run :
  neighbouring_street_orientation_deviation street_table =
    Ok (oriented_streets 0 45, [Fin (45 / 2); Fin (45 / 2)]).
Proof.
  unfold neighbouring_street_orientation_deviation.
  run street_orientations. fold (oriented_streets 0 45).
  assert (sindex (oriented_streets 0 45) =
    Ok [VGeom (0%nat : @geometry two_streets); VGeom (1%nat : @geometry two_streets)])
    as Hindex by (by vm_compute).
  run Hindex. run (street_deviations 0 45).
  assert (∃ t, drop_column (oriented_streets 0 45) "tmporient" = Ok t) as [t Ht].
  { eexists. by vm_compute. }
  run Ht. do 3 f_equal.
  - unfold Float.mean. simpl. f_equal.
    rewrite Rminus_diag, Rabs_R0, Rminus_0_r, Rabs_pos_eq by lra. lra.
  - f_equal. unfold Float.mean. simpl. f_equal.
    rewrite Rminus_diag, Rabs_R0, Rminus_0_l, Rabs_Ropp, Rabs_pos_eq by lra. lra.
Qed.

(** C4 on the two streets. The table [neighbors] of segment 0 holds the
    segments 0 and 1, the focal one included; the deviation of each segment
    is the mean of 0 (its deviation from itself) and 45, that is 22.5, where
    the mean over the other segment alone is 45. *)
Theorem street_neighbours_keep_focal :
  df_index <$> street_neighbors (oriented_streets 0 45)
    [VGeom (0%nat : @geometry two_streets); VGeom (1%nat : @geometry two_streets)]
    0 (row_at (oriented_streets 0 45) 0) = Ok [0; 1]%nat ∧
  neighbouring_street_orientation_deviation street_table =
    Ok (oriented_streets 0 45, [Fin (45 / 2); Fin (45 / 2)]).
Proof. split; [by vm_compute|apply two_streets_run]. Qed.

End StreetScene.

(** ** What a call leaves behind *)

Section SideEffects.
#[local] Existing Instance isolated_cells.
Local Open Scope R_scope.

(** C5 on three inputs. After
    [neighbouring_street_orientation_deviation] the street table has the
    column [tmporient], which it did not have before. After
    [mean_interbuilding_distance] the neighbour list of cell 0 in the
    higher-order weights passed by the caller is [[0]], where it was empty.
    After [shared_walls_ratio] with the identifiers passed as values the
    table has the column [mm_uid]. *)
Theorem inputs_are_changed :
  (∃ objects' series,
     neighbouring_street_orientation_deviation street_table = Ok (objects', series) ∧
     has_column street_table "tmporient" = false ∧
     has_column objects' "tmporient" = true) ∧
  (mean_interbuilding_distance (single_object upright_ring 0)
     (single_object upright_ring 0) (Some lone_cell) (Some lone_cell) 3 =
     Ok ([NaN], mkW {[ 0%nat := [0%nat] ]} [0%nat]) ∧
   neighbors lone_cell !! 0%nat = Some []) ∧
  (∃ objects' series,
     shared_walls_ratio (single_object upright_ring 0) (ByValues [VInt 7]) None =
       Ok (objects', series) ∧
     has_column (single_object upright_ring 0) "mm_uid" = false ∧
     has_column objects' "mm_uid" = true).
Proof.
  split_and!.
  - do 2 eexists. split; [exact two_streets_run|]. split; by vm_compute.
  - by vm_compute.
  - by vm_compute.
  - do 2 eexists. split; [by vm_compute|]. split; by vm_compute.
Qed.

(** Witness of C8: the single object on its cell. *)
Lemma one_value_per_row_witness :
  length [NaN] = nrows (single_object upright_ring 0).
Proof.
  destruct (one_value_per_row (single_object upright_ring 0))
    as (_ & _ & _ & _ & _ & _ & Hrows & _).
  apply (Hrows (single_object upright_ring 0) (Some lone_cell) (Some lone_cell) 3%nat
    [NaN] (mkW {[ 0%nat := [0%nat] ]} [0%nat])).
  by vm_compute.
Defined.

End SideEffects.

(** Witness of C9: the six squares. *)
Lemma patch_detection_terminates_witness :
  ∃ r, compute_patches six_squares [0; 1; 2; 3; 4; 5] = Some r.
Proof. apply (patch_detection_terminates six_squares [0; 1; 2; 3; 4; 5]). Defined.

(** * Further properties *)

(** ** The fold and the azimuth *)

Section FoldFacts.
Local Open Scope R_scope.

(** X1. On an azimuth between 0 and 180 the fold is the distance to the
    nearest of the cardinal directions 0, 90 and 180. *)
Theorem fold_distance_to_cardinal (az : R) :
  0 <= az <= 180 →
  fold az = Rmin az (Rmin (Rabs (az - 90)) (180 - az)).
Proof.
  intros Haz. unfold fold, Rgtb, Rgeb, Rmin, Rabs.
  repeat (destruct (Rgt_dec _ _); destruct (Rge_dec _ _); simpl; try lra);
    destruct (Rcase_abs _); repeat (destruct (Rle_dec _ _); try lra).
Qed.

(** Witness of X1. *)
Lemma fold_distance_to_cardinal_witness :
  fold 100 = Rmin 100 (Rmin (Rabs (100 - 90)) (180 - 100)).
Proof. apply fold_distance_to_cardinal. lra. Defined.

(** X2. Turning an axis by 90 degrees does not change its folded
    orientation. *)
Theorem fold_quarter_turn (az : R) :
  0 <= az < 90 → fold (az + 90) = fold az.
Proof.
  intros Haz. unfold fold, Rgtb, Rgeb.
  repeat (destruct (Rgt_dec _ _); destruct (Rge_dec _ _); simpl; try lra).
Qed.

(** Witness of X2. *)
Lemma fold_quarter_turn_witness : fold (30 + 90) = fold 30.
Proof. apply fold_quarter_turn. lra. Defined.

End FoldFacts.

(** ** Neighbour sets *)

Section NeighbourSets.
Context `{GeometryProvider}.

Lemma list_remove_elem x l :
  x ∈ l → ∃ l', list_remove x l = Ok l' ∧ ∀ n, n ≠ x → (n ∈ l' ↔ n ∈ l).
Proof.
  induction l as [|y l IH]; intros Hx; [by apply elem_of_nil in Hx|]. simpl.
  case_bool_decide as Hy.
  - subst. exists l. split; [done|]. intros n Hn. rewrite elem_of_cons. naive_solver.
  - apply elem_of_cons in Hx as [->|Hx]; [done|].
    destruct (IH Hx) as (l' & -> & Hl'). exists (y :: l'). split; [done|].
    intros n Hn. rewrite !elem_of_cons, (Hl' n Hn). done.
Qed.

Lemma list_remove_missing x l : x ∉ l → list_remove x l = Raise ValueError.
Proof.
  induction l as [|y l IH]; intros Hx; [done|]. simpl.
  apply not_elem_of_cons in Hx as [Hxy Hx].
  rewrite bool_decide_false by done. by rewrite IH.
Qed.

(** X5. In [shared_walls_ratio] the list over which the intersections are
    summed holds the objects that the index returns for the bounds of the
    focal object, without the focal object itself; when the index does not
    return the label of the focal object, the row raises [ValueError]. *)
Theorem shared_walls_neighbours (index_values : list value) (index : nat) (r : row)
    (g : geometry) :
  geometry_of r = Ok g →
  (index ∈ sindex_intersection index_values g →
     ∃ ns, bbox_neighbors index_values index r = Ok ns ∧ index ∉ ns ∧
       ∀ n, n ∈ ns ↔ n ∈ sindex_intersection index_values g ∧ n ≠ index) ∧
  (index ∉ sindex_intersection index_values g →
     ∀ objects perimeters,
       shared_walls_row objects index_values perimeters index r = Raise ValueError).
Proof.
  intros Hg. split.
  - intros Hin. destruct (list_remove_elem _ _ Hin) as (ns & Hns & Hmem).
    assert (bbox_neighbors index_values index r = Ok ns) as Hrun.
    { unfold bbox_neighbors. by run Hg. }
    exists ns. split; [done|].
    pose proof (bbox_neighbors_exclude_focal _ _ _ _ Hrun) as Hout.
    split; [done|]. intros n. split.
    + intros Hn. assert (n ≠ index) by (by intros ->). split; [by apply Hmem|done].
    + intros [Hn Hne]. by apply Hmem.
  - intros Hout objects perimeters. unfold shared_walls_row, bbox_neighbors.
    run Hg. by rewrite list_remove_missing.
Qed.

(** X6. In [neighbouring_street_orientation_deviation] the table over
    which the deviations of a segment are averaged always holds the segment
    itself, so it is never empty: a row that does not find the focal
    segment raises the key error of [neighbors.drop([index])]. *)
Theorem street_focal_always_counted (objects : DataFrame) (index_values : list value)
    (index : nat) (r : row) (neighbors : DataFrame) :
  street_neighbors objects index_values index r = Ok neighbors →
  index ∈ df_index neighbors ∧ 0 < nrows neighbors.
Proof.
  intros Hin%street_neighbors_include_focal. split; [done|].
  unfold nrows. destruct (df_index neighbors); [by apply elem_of_nil in Hin|simpl; lia].
Qed.

End NeighbourSets.

Section NeighbourSetScenes.

(** Witness of X5: the lone rectangle under label 5, which the index
    returns at position 0. *)
Lemma shared_walls_neighbours_witness :
  shared_walls_row (single_object upright_ring 5)
    [VGeom (the_rectangle upright_ring)] "mm_p" 5 (single_row upright_ring) =
  Raise ValueError.
Proof.
  destruct (shared_walls_neighbours [VGeom (the_rectangle upright_ring)] 5
    (single_row upright_ring) (the_rectangle upright_ring)) as [_ Hmiss].
  - by vm_compute.
  - apply Hmiss. vm_compute. intros Hin.
    apply list_elem_of_singleton in Hin. discriminate.
Defined.

(** Witness of X6: segment 0 of the two streets. *)
Lemma street_focal_always_counted_witness :
  ∃ neighbors,
    street_neighbors (oriented_streets 0 45)
      [VGeom (0 : @geometry two_streets); VGeom (1 : @geometry two_streets)]
      0 (row_at (oriented_streets 0 45) 0) = Ok neighbors ∧
    0 ∈ df_index neighbors ∧ 0 < nrows neighbors.
Proof.
  eexists. split; [by vm_compute|].
  eapply (street_focal_always_counted (oriented_streets 0 45)
    [VGeom (0 : @geometry two_streets); VGeom (1 : @geometry two_streets)]
    0 (row_at (oriented_streets 0 45) 0)).
  by vm_compute.
Defined.

End NeighbourSetScenes.

(** ** What the calls leave on their inputs *)

Section Frame.
Context `{GeometryProvider} `{!ContiguityBuilder}.

Lemma has_column_false (df : DataFrame) c :
  has_column df c = false ↔ df_data df !! c = None.
Proof.
  unfold has_column. rewrite bool_decide_eq_false, <- eq_None_not_Some. done.
Qed.

Lemma has_column_true (df : DataFrame) c :
  has_column df c = true ↔ is_Some (df_data df !! c).
Proof. unfold has_column. by rewrite bool_decide_eq_true. Qed.

(** X7. When [neighbouring_street_orientation_deviation] returns, the
    table of the caller has the same rows and the same columns as before,
    except for the column [tmporient], which is now on the table. *)
Theorem street_deviation_leaves_tmporient (objects objects' : DataFrame)
    (series : list float) :
  neighbouring_street_orientation_deviation objects = Ok (objects', series) →
  df_index objects' = df_index objects ∧
  has_column objects' "tmporient" = true ∧
  ∀ c, c ≠ "tmporient" → df_data objects' !! c = df_data objects !! c.
Proof.
  unfold neighbouring_street_orientation_deviation.
  destruct (for_each _ (iterrows objects)) as [first|]; simpl; [|done].
  destruct (sindex _) as [index_values|]; simpl; [|done].
  destruct (for_each _ (iterrows _)) as [results_list|]; simpl; [|done].
  destruct (drop_column _ _); simpl; [|done].
  intros [= <- <-]. split_and!; [done| |].
  - apply has_column_true. simpl. rewrite lookup_insert_eq. by eexists.
  - intros c Hc. simpl. by rewrite lookup_insert_ne.
Qed.

(** X8. When [shared_walls_ratio] returns, the table of the caller has the
    same rows as before and no column [mm_p], also when the caller had a
    column of that name; the identifiers passed as values stay on the table
    as column [mm_uid]; every other column is as before. *)
Theorem shared_walls_ratio_frame (objects objects' : DataFrame)
    (unique_id : column_arg) (perimeters : option column_arg) (series : list float) :
  shared_walls_ratio objects unique_id perimeters = Ok (objects', series) →
  df_index objects' = df_index objects ∧
  has_column objects' "mm_p" = false ∧
  (∀ values, unique_id = ByValues values →
     df_data objects' !! "mm_uid" = Some values) ∧
  (∀ c, c ≠ "mm_p" → c ≠ "mm_uid" → df_data objects' !! c = df_data objects !! c).
Proof.
  unfold shared_walls_ratio.
  destruct (sindex objects) as [index_values|]; simpl; [|done].
  destruct (match perimeters with
            | None => _ | Some (ByName c) => _ | Some (ByValues values) => _
            end) as [[objects1 perimeters']|] eqn:Hp; simpl; [|done].
  assert (df_index objects1 = df_index objects ∧
    ∀ c, c ≠ "mm_p" → df_data objects1 !! c = df_data objects !! c) as [Hi1 Hd1].
  { destruct perimeters as [[c|values]|]; simpl in Hp.
    - by injection Hp as <- <-.
    - unfold set_column in Hp. case_bool_decide; simpl in Hp; [|done].
      injection Hp as <- <-. split; [done|]. intros c Hc. simpl. by rewrite lookup_insert_ne.
    - destruct (for_each _ index_values) as [lengths|]; simpl in Hp; [|done].
      unfold set_column in Hp. case_bool_decide; simpl in Hp; [|done].
      injection Hp as <- <-. split; [done|]. intros c Hc. simpl. by rewrite lookup_insert_ne. }
  destruct (match unique_id with ByName c => _ | ByValues values => _ end)
    as [[objects2 unique_id']|] eqn:Hu; simpl; [|done].
  assert (df_index objects2 = df_index objects1 ∧
    (∀ values, unique_id = ByValues values → df_data objects2 !! "mm_uid" = Some values) ∧
    ∀ c, c ≠ "mm_uid" → df_data objects2 !! c = df_data objects1 !! c) as (Hi2 & Hu2 & Hd2).
  { destruct unique_id as [c|values]; simpl in Hu.
    - injection Hu as <- <-. done.
    - unfold set_column in Hu. case_bool_decide; simpl in Hu; [|done].
      injection Hu as <- <-. split_and!; [done| |].
      + intros ? [= <-]. simpl. by rewrite lookup_insert_eq.
      + intros c Hc. simpl. by rewrite lookup_insert_ne. }
  destruct (for_each _ (iterrows objects2)) as [results_list|]; simpl; [|done].
  destruct (has_column objects2 "mm_p") eqn:Hhas.
  - unfold drop_column. rewrite Hhas. simpl. intros [= <- <-]. simpl. split_and!.
    + by rewrite Hi2.
    + apply has_column_false. simpl. apply lookup_delete_eq.
    + intros values Hv. rewrite lookup_delete_ne by done. by apply Hu2.
    + intros c Hp' Hu'. rewrite lookup_delete_ne by done. rewrite Hd2, Hd1; done.
  - simpl. intros [= <- <-]. split_and!; [by rewrite Hi2|done|done|].
    intros c Hp' Hu'. rewrite Hd2, Hd1; done.
Qed.

Lemma matched_rows_snoc (tessellation : DataFrame) k pre label (r : row) :
  matched_rows tessellation k (pre ++ [(label, r)]) =
    matched_rows tessellation k pre +
    match matching_cell tessellation "uID" r with
    | Ok id => if bool_decide (id = k) then 1 else 0
    | Raise _ => 0
    end.
Proof.
  unfold matched_rows. rewrite List.filter_app, length_app. f_equal. simpl.
  destruct (matching_cell tessellation "uID" r) as [id|]; [|done].
  by case_bool_decide.
Qed.

(** X9. [mean_interbuilding_distance] changes the higher-order weights of
    the caller only by appending to the neighbour list of a cell the id of
    that cell, once for each object that is matched to it: the keys and the
    order of the ids stay, and the list of the cell [k] is what it was,
    followed by as many copies of [k] as the table has rows matched to
    [k]. *)
Theorem higher_weights_grow (objects tessellation : DataFrame)
    (weights_matrix : option W) (weights_matrix_higher : W) (order : nat)
    (series : list float) (higher : W) :
  mean_interbuilding_distance objects tessellation weights_matrix
    (Some weights_matrix_higher) order = Ok (series, higher) →
  id_order higher = id_order weights_matrix_higher ∧
  ∀ k, match neighbors weights_matrix_higher !! k with
       | Some l =>
         neighbors higher !! k =
           Some (l ++ replicate (matched_rows tessellation k (iterrows objects)) k)
       | None => neighbors higher !! k = None
       end.
Proof.
  unfold mean_interbuilding_distance.
  destruct (compute_distances _ _) as [[adj_list computed]|]; simpl; [|done].
  destruct (fold_each _ _ _) as [[higher' results_list]|] eqn:Hloop; simpl; [|done].
  intros [= <- <-]. simpl. split; [done|].
  change higher' with (higher', results_list).1.
  change (iterrows objects) with ([] ++ iterrows objects).
  eapply (fold_each_prefix _ (λ st pre, ∀ k,
    match neighbors weights_matrix_higher !! k with
    | Some l => st.1 !! k = Some (l ++ replicate (matched_rows tessellation k pre) k)
    | None => st.1 !! k = None
    end)); [|exact Hloop|].
  - intros [h res] [label r] st1 pre Hstep Hinv k. unfold mean_interbuilding_row in Hstep.
    rewrite matched_rows_snoc.
    destruct (matching_cell tessellation "uID" r) as [id|]; simpl in Hstep; [|done].
    unfold neighbors_of in Hstep. destruct (h !! id) as [ns|] eqn:Hid; simpl in Hstep; [|done].
    rewrite bool_decide_true in Hstep by (rewrite length_app; simpl; lia).
    injection Hstep as <-. simpl. specialize (Hinv k). simpl in Hinv.
    destruct (decide (k = id)) as [->|Hne].
    + rewrite lookup_insert_eq, bool_decide_true by done. rewrite Hid in Hinv.
      destruct (neighbors weights_matrix_higher !! id) as [l|]; [|done].
      injection Hinv as ->.
      by rewrite replicate_add, app_assoc.
    + rewrite lookup_insert_ne by done.
      rewrite bool_decide_false by done. by rewrite Nat.add_0_r.
  - intros k. simpl. destruct (neighbors weights_matrix_higher !! k) as [l|]; [|done].
    by rewrite app_nil_r.
Qed.

End Frame.

(** Witnesses of X7, X8 and X9. *)
Section FrameScenes.
#[local] Existing Instance isolated_cells.
Local Open Scope R_scope.

Lemma street_deviation_leaves_tmporient_witness :
  has_column (oriented_streets 0 45) "tmporient" = true.
Proof.
  eapply (street_deviation_leaves_tmporient street_table (oriented_streets 0 45)).
  exact two_streets_run.
Defined.

Lemma shared_walls_ratio_frame_witness :
  ∃ objects' : @DataFrame (lone_rectangle upright_ring),
    has_column objects' "mm_p" = false ∧
    df_data objects' !! "mm_uid" = Some [VInt 7].
Proof.
  assert (∃ objects' series,
    shared_walls_ratio (single_object upright_ring 0) (ByValues [VInt 7]) None =
      Ok (objects', series)) as (objects' & series & Hrun).
  { do 2 eexists. by vm_compute. }
  destruct (shared_walls_ratio_frame _ _ _ _ _ Hrun) as (_ & Hp & Hu & _).
  exists objects'. split; [done|]. by apply Hu.
Defined.

Lemma higher_weights_grow_witness :
  neighbors (mkW {[ 0%nat := [0%nat] ]} [0%nat]) !! 0%nat =
    Some ([] ++ replicate (matched_rows (single_object upright_ring 0) 0
                             (iterrows (single_object upright_ring 0))) 0%nat).
Proof.
  destruct (higher_weights_grow (single_object upright_ring 0)
    (single_object upright_ring 0) (Some lone_cell) lone_cell 3 [NaN]
    (mkW {[ 0%nat := [0%nat] ]} [0%nat])) as [_ Hlists]; [by vm_compute|].
  exact (Hlists 0%nat).
Defined.

End FrameScenes.

(** ** The values of the alignment metrics *)

Section Values.
Context `{GeometryProvider} `{!ContiguityBuilder}.
Local Open Scope R_scope.

Lemma abs_nonneg x : nonneg_or_nan (Float.abs x).
Proof. destruct x; simpl; [apply Rabs_pos|done]. Qed.

Lemma sum_nonneg xs acc :
  nonneg_or_nan acc → Forall nonneg_or_nan xs → nonneg_or_nan (foldl Float.add acc xs).
Proof.
  intros Hacc Hxs. revert acc Hacc.
  induction Hxs as [|x xs Hx _ IH]; intros acc Hacc; simpl; [done|].
  apply IH. destruct acc, x; simpl in *; [lra|done..].
Qed.

Lemma mean_nonneg xs : Forall nonneg_or_nan xs → nonneg_or_nan (Float.mean xs).
Proof.
  intros Hxs. unfold Float.mean, Float.sum.
  pose proof (sum_nonneg xs (Fin 0) ltac:(simpl; lra) Hxs) as Hsum.
  destruct (foldl Float.add (Fin 0) xs) as [s|]; simpl in *; [|done].
  destruct xs as [|x xs'].
  - simpl. destruct Hsum as [Hs| <-]; [|rewrite Rdiv_0_l; lra].
    unfold Rdiv. rewrite Rinv_0. lra.
  - assert (0 < INR (length (x :: xs'))) as Hn by (apply lt_0_INR; simpl; lia).
    apply Rinv_0_lt_compat in Hn. unfold Rdiv. nra.
Qed.

Lemma for_each_Forall {A B} (body : A → result B) (P : B → Prop) xs ys :
  (∀ x y, body x = Ok y → P y) → for_each body xs = Ok ys → Forall P ys.
Proof.
  intros Hbody Hrun%for_each_Ok.
  induction Hrun as [|x y xs ys Hxy _ IH]; constructor; eauto.
Qed.

Lemma mean_of_deviations (own : result float) orientations deviations :
  for_each (λ o : value,
      o ← as_float o;
      own ← own;
      Ok (Float.abs (Float.sub o own))) orientations = Ok deviations →
  nonneg_or_nan
    (if bool_decide (0 < length deviations)%nat then Float.mean deviations else Fin 0).
Proof.
  intros Hdev. case_bool_decide; [|simpl; lra].
  apply mean_nonneg. eapply for_each_Forall; [|exact Hdev].
  intros o y. simpl. destruct (as_float o); simpl; [|done].
  destruct own; simpl; [|done]. intros [= <-]. apply abs_nonneg.
Qed.

(** X10. The values of [street_alignment], [cell_alignment], [alignment]
    and [neighbouring_street_orientation_deviation] are never negative
    numbers: each is an absolute difference, a mean of absolute
    differences, or 0. *)
Theorem alignments_not_negative (objects : DataFrame) :
  (∀ streets orientation_column network_id_column series,
     street_alignment objects streets orientation_column network_id_column = Ok series →
     Forall nonneg_or_nan series) ∧
  (∀ tessellation orientation_column cell_orientation_column unique_id series,
     cell_alignment objects tessellation orientation_column cell_orientation_column
       unique_id = Ok series →
     Forall nonneg_or_nan series) ∧
  (∀ orientation_column tessellation weights_matrix series,
     alignment objects orientation_column tessellation weights_matrix = Ok series →
     Forall nonneg_or_nan series) ∧
  (∀ objects' series,
     neighbouring_street_orientation_deviation objects = Ok (objects', series) →
     Forall nonneg_or_nan series).
Proof.
  split_and!.
  - intros streets oc nc series. apply for_each_Forall. intros [label r] y.
    unfold street_alignment_row.
    destruct (getitem r nc) as [nid|]; simpl; [|done].
    destruct (isnull nid); [intros [= <-]; simpl; lra|].
    destruct (column streets nc) as [ids|]; simpl; [|done].
    destruct (iloc _ 0 ≫= geometry_of) as [g|]; simpl; [|done].
    destruct (item (coords g) 0); simpl; [|done].
    destruct (last_item (coords g)); simpl; [|done].
    destruct (getitem r oc ≫= as_float); simpl; [|done].
    intros [= <-]. apply abs_nonneg.
  - intros tessellation oc coc uid series. apply for_each_Forall. intros [label r] y.
    unfold cell_alignment_row.
    destruct (getitem r oc ≫= as_float); simpl; [|done].
    destruct (column tessellation uid); simpl; [|done].
    destruct (getitem r uid); simpl; [|done].
    destruct (column _ coc); simpl; [|done].
    destruct (item _ 0 ≫= as_float); simpl; [|done].
    intros [= <-]. apply abs_nonneg.
  - intros oc tessellation weights_matrix series. apply for_each_Forall.
    intros [label r] y. unfold alignment_row.
    destruct (matching_cell tessellation "uID" r); simpl; [|done].
    destruct (neighbors_of _ _); simpl; [|done].
    destruct (for_each _ _) as [neighbours_ids|]; simpl; [|done].
    destruct (for_each _ neighbours_ids) as [orientations|]; simpl; [|done].
    destruct (for_each _ orientations) as [deviations|] eqn:Hdev; simpl; [|done].
    pose proof (mean_of_deviations _ _ _ Hdev) as Hmean.
    case_bool_decide; intros [= <-]; exact Hmean.
  - intros objects' series. unfold neighbouring_street_orientation_deviation.
    destruct (for_each _ (iterrows objects)) as [first|]; simpl; [|done].
    destruct (sindex _) as [index_values|]; simpl; [|done].
    destruct (for_each _ (iterrows _)) as [results_list|] eqn:Hloop; simpl; [|done].
    destruct (drop_column _ _); simpl; [|done].
    intros [= <- <-]. eapply for_each_Forall; [|exact Hloop].
    intros [label r] y. unfold street_deviation_row.
    destruct (street_neighbors _ _ _ _) as [neighbors|]; simpl; [|done].
    destruct (for_each _ (iterrows neighbors)) as [orientations|]; simpl; [|done].
    destruct (for_each _ orientations) as [deviations|] eqn:Hdev; simpl; [|done].
    pose proof (mean_of_deviations _ _ _ Hdev) as Hmean.
    case_bool_decide; intros [= <-]; exact Hmean.
Qed.

End Values.

Section ValuesScenes.
#[local] Existing Instance isolated_cells.
Local Open Scope R_scope.

(** Witness of X10: the two streets. *)
Lemma alignments_not_negative_witness :
  Forall nonneg_or_nan [Fin (45 / 2); Fin (45 / 2)].
Proof.
  destruct (alignments_not_negative street_table) as (_ & _ & _ & Hdev).
  exact (Hdev _ _ two_streets_run).
Defined.

End ValuesScenes.

(** ** Joining the tables on the identifier *)

Section Joins.
Context `{GeometryProvider} `{!ContiguityBuilder}.

Lemma keep_no_match {A} (ids : list value) uid (l : list A) :
  (∀ x, x ∈ ids → value_eqb x uid = false) → keep (eq_mask ids uid) l = [].
Proof.
  revert l. induction ids as [|x ids IH]; intros l Hno; simpl; [done|].
  destruct l as [|y l]; [done|].
  rewrite (Hno x) by (by left). apply IH. intros x' Hx'. apply Hno. by right.
Qed.

Lemma matching_cell_unmatched (tessellation : DataFrame) c (r : row) ids uid :
  column tessellation c = Ok ids →
  getitem r c = Ok uid →
  (∀ x, x ∈ ids → value_eqb x uid = false) →
  matching_cell tessellation c r = Raise IndexError.
Proof.
  intros Hids Huid Hno. unfold matching_cell. run Hids. run Huid.
  unfold select. simpl. by rewrite keep_no_match.
Qed.

(** X11. An object whose identifier is the identifier of no cell makes
    [alignment], [neighbour_distance], [mean_interbuilding_distance] and
    [building_adjacency] raise [IndexError] at its row; it is not taken
    for an object without neighbours. [cell_alignment] does the same, and
    so does [street_alignment] for a network id that no street bears. *)
Theorem unmatched_identifier_raises (objects tessellation : DataFrame) (c : string)
    (r : row) (ids : list value) (uid : value) :
  column tessellation c = Ok ids →
  getitem r c = Ok uid →
  (∀ x, x ∈ ids → value_eqb x uid = false) →
  (c = "uID" → ∀ orientation_column weights_matrix,
     alignment_row objects orientation_column tessellation weights_matrix r =
       Raise IndexError) ∧
  (c = "uID" → ∀ weights_matrix,
     neighbour_distance_row objects tessellation weights_matrix r = Raise IndexError) ∧
  (c = "uID" → ∀ adj_list st,
     mean_interbuilding_row tessellation adj_list st r = Raise IndexError) ∧
  (∀ weights_matrix_higher patches index,
     building_adjacency_row objects tessellation weights_matrix_higher c patches
       index r = Raise IndexError) ∧
  (∀ orientation_column cell_orientation_column o,
     getitem r orientation_column ≫= as_float = Ok o →
     has_column tessellation cell_orientation_column = true →
     cell_alignment_row tessellation orientation_column cell_orientation_column c r =
       Raise IndexError) ∧
  (∀ orientation_column, isnull uid = false →
     street_alignment_row tessellation orientation_column c r = Raise IndexError).
Proof.
  intros Hids Huid Hno.
  pose proof (matching_cell_unmatched _ _ _ _ _ Hids Huid Hno) as Hcell.
  split_and!.
  - intros -> oc w. unfold alignment_row. by rewrite Hcell.
  - intros -> w. unfold neighbour_distance_row. by rewrite Hcell.
  - intros -> adj_list [higher results_list]. unfold mean_interbuilding_row.
    by rewrite Hcell.
  - intros wh patches index. unfold building_adjacency_row. by rewrite Hcell.
  - intros oc coc o Ho [cells Hcells]%bool_decide_eq_true.
    unfold cell_alignment_row. run Ho. run Hids. run Huid.
    unfold column, select. simpl. rewrite lookup_fmap, Hcells. simpl.
    by rewrite keep_no_match.
  - intros oc Hnull. unfold street_alignment_row. run Huid. rewrite Hnull.
    run Hids. unfold iloc, nrows, select. simpl. by rewrite keep_no_match.
Qed.

Lemma keep_first_match {A} (ids : list value) uid (l : list A) p x y :
  ids !! p = Some x → value_eqb x uid = true →
  (∀ q z, q < p → ids !! q = Some z → value_eqb z uid = false) →
  l !! p = Some y →
  keep (eq_mask ids uid) l !! 0 = Some y.
Proof.
  revert ids l. induction p as [|p IH]; intros ids l Hp Hx Hbefore Hy.
  - destruct ids as [|x' ids]; [done|]. destruct l as [|y' l]; [done|].
    simpl in *. injection Hp as ->. injection Hy as ->. by rewrite Hx.
  - destruct ids as [|x' ids]; [done|]. destruct l as [|y' l]; [done|].
    simpl in *. rewrite (Hbefore 0 x') by (done || lia).
    apply IH; [done|done| |done].
    intros q z Hq Hz. apply (Hbefore (S q) z); [lia|done].
Qed.

(** X12. When several cells bear the identifier of an object, the object
    is matched to the first of them in the order of the table. *)
Theorem first_matching_cell_wins (tessellation : DataFrame) (c : string) (r : row)
    (ids : list value) (uid x : value) (p label : nat) :
  column tessellation c = Ok ids →
  getitem r c = Ok uid →
  ids !! p = Some x → value_eqb x uid = true →
  (∀ q z, q < p → ids !! q = Some z → value_eqb z uid = false) →
  df_index tessellation !! p = Some label →
  matching_cell tessellation c r = Ok label.
Proof.
  intros Hids Huid Hp Hx Hbefore Hlabel. unfold matching_cell. run Hids. run Huid.
  unfold item, select. simpl.
  by rewrite (keep_first_match ids uid (df_index tessellation) p x label).
Qed.

End Joins.

Section JoinScenes.
#[local] Existing Instance isolated_cells.

(** Witness of X11: the stray row against the twin cells. *)
Lemma unmatched_identifier_raises_witness :
  alignment_row twin_cells "orientation" twin_cells lone_cell stray_row =
    Raise IndexError.
Proof.
  destruct (unmatched_identifier_raises twin_cells twin_cells "uID" stray_row
    [VInt 7; VInt 7] (VInt 8)) as [Halign _].
  - by vm_compute.
  - by vm_compute.
  - intros x Hx. rewrite !elem_of_cons in Hx.
    destruct Hx as [->|[->|Hx]]; [by vm_compute..|by apply elem_of_nil in Hx].
  - by apply Halign.
Defined.

(** Witness of X12: the row of the lone rectangle against the twin cells. *)
Lemma first_matching_cell_wins_witness :
  matching_cell twin_cells "uID" (single_row upright_ring) = Ok 10.
Proof.
  apply (first_matching_cell_wins twin_cells "uID" (single_row upright_ring)
    [VInt 7; VInt 7] (VInt 7) (VInt 7) 0 10); try by vm_compute.
  intros q z Hq. lia.
Defined.

End JoinScenes.

(** ** The values of building_adjacency *)

Section AdjacencyValues.
Context `{GeometryProvider} `{!ContiguityBuilder}.
Local Open Scope R_scope.

Lemma length_keep {A} (mask : list bool) (l : list A) :
  (length (keep mask l) ≤ length l)%nat.
Proof.
  revert l. induction mask as [|b mask IH]; intros l; simpl; [lia|].
  destruct l as [|x l]; simpl; [lia|]. specialize (IH l). destruct b; simpl; lia.
Qed.

Lemma count_distinct_le (l : list nat) : (count_distinct l ≤ length l)%nat.
Proof.
  unfold count_distinct. apply submseteq_length, NoDup_submseteq.
  - apply NoDup_remove_dups.
  - intros x. by rewrite elem_of_remove_dups.
Qed.

(** X13. Every value of [building_adjacency] is a number between 1 and the
    number of objects of the table: it is the number of objects of the
    neighbourhood divided by the number of distinct patches among them,
    and there are at least one and at most as many patches as objects. *)
Theorem building_adjacency_bounds (objects tessellation : DataFrame)
    (weights_matrix weights_matrix_higher : option W) (order : nat)
    (unique_id : string) (series : list float) :
  building_adjacency objects tessellation weights_matrix weights_matrix_higher
    order unique_id = Some (Ok series) →
  Forall (λ v, ∃ x, v = Fin x ∧ 1 <= x <= INR (nrows objects)) series.
Proof.
  unfold building_adjacency.
  destruct (compute_patches _ _) as [[[patches jID]|]|]; [|done..].
  intros [= Hloop]. eapply for_each_Forall; [|exact Hloop].
  intros [index r] v. unfold building_adjacency_row.
  destruct (matching_cell tessellation unique_id r); simpl; [|done].
  destruct (neighbors_of _ _); simpl; [|done].
  destruct (iloc_list _ _ ≫= _) as [neighbours_ids|]; simpl; [|done].
  destruct (getitem r unique_id) as [uid|]; simpl; [|done].
  destruct (column objects unique_id) as [ids|]; simpl; [|done].
  set (mask := isin ids (neighbours_ids ++ [uid])).
  destruct (for_each _ (keep mask (df_index objects))) as [patches_sub|] eqn:Hsub;
    simpl; [|done].
  apply for_each_length in Hsub.
  pose proof (count_distinct_le patches_sub) as Hle.
  pose proof (length_keep mask (df_index objects)) as Hkeep.
  case_bool_decide as Hzero; [done|]. intros [= <-].
  eexists. split; [done|]. unfold nrows. simpl.
  set (n := length (keep mask (df_index objects))) in *.
  set (k := count_distinct patches_sub) in *.
  assert (1 <= INR k) as Hk by (change 1 with (INR 1); apply le_INR; lia).
  assert (INR k <= INR n) as Hkn by (apply le_INR; lia).
  assert (INR n <= INR (length (df_index objects))) as Hn by (by apply le_INR).
  assert (0 < / INR k) as Hinv by (apply Rinv_0_lt_compat; lra).
  assert (INR k * / INR k = 1) as Hone by (apply Rinv_r; lra).
  unfold Rdiv. split; nra.
Qed.

End AdjacencyValues.

Section AdjacencyScenes.
#[local] Existing Instance isolated_cells.
Local Open Scope R_scope.

(** The scenario of the spec: three touching squares in the shape of an L
    form one patch, and the adjacency of each is 3 / 1. *)
Example l_shape_adjacency :
  building_adjacency l_shape_table l_shape_table (Some l_shape_weights)
    (Some l_shape_higher) 3 "uID" = Some (Ok [Fin 3; Fin 3; Fin 3]).
Proof.
  assert (building_adjacency l_shape_table l_shape_table (Some l_shape_weights)
    (Some l_shape_higher) 3 "uID" =
    Some (Ok [Fin (INR 3 / INR 1); Fin (INR 3 / INR 1); Fin (INR 3 / INR 1)])) as ->
    by (by vm_compute).
  assert (INR 3 / INR 1 = 3) as -> by (simpl; lra). done.
Qed.

(** Witness of X13: the L-shaped group. *)
Lemma building_adjacency_bounds_witness :
  Forall (λ v, ∃ x, v = Fin x ∧ 1 <= x <= INR (nrows l_shape_table))
    [Fin 3; Fin 3; Fin 3].
Proof.
  exact (building_adjacency_bounds l_shape_table l_shape_table (Some l_shape_weights)
    (Some l_shape_higher) 3 "uID" _ l_shape_adjacency).
Defined.

End AdjacencyScenes.

(** ** The patch ids *)

Section PatchIds.
Context (nb : gmap nat (list nat)).

Lemma patch_loop_ids fuel index patches jID patches' jID' :
  symmetric nb →
  (∀ i, i ∈ index → is_Some (nb !! i)) →
  patches_inv nb patches jID →
  patch_loop fuel nb index patches jID = Some (Ok (patches', jID')) →
  jID ≤ jID' ≤ jID + length index ∧
  (∀ a j, patches !! a = Some j → patches' !! a = Some j) ∧
  (∀ j, jID ≤ j < jID' → ∃ a, a ∈ index ∧ patches' !! a = Some j).
Proof.
  intros Hsym. revert patches jID.
  induction index as [|i rest IH]; intros patches jID Hkeys Hinv Hrun; simpl in Hrun.
  - injection Hrun as <- <-. simpl. split_and!; [lia|lia|done|]. intros j Hj. lia.
  - assert (∀ i, i ∈ rest → is_Some (nb !! i)) as Hkeys' by (intros; apply Hkeys; by right).
    case_bool_decide as Hdone.
    + destruct (IH patches jID Hkeys' Hinv Hrun) as (Hj & Hkeep & Hused).
      simpl. split_and!; [lia|lia|done|].
      intros j Hjj. destruct (Hused j Hjj) as (a & Ha & Hpa). exists a. split; [by right|done].
    + destruct (Hkeys i) as [ws Hws]; [by left|].
      unfold neighbors_of in Hrun. rewrite Hws in Hrun. simpl in Hrun.
      destruct (for_neighbours fuel nb 0 [i] ws) as [r'|] eqn:Hbfs; [|done].
      destruct (for_neighbours_correct nb fuel i 0 [i] ws r' Hsym Hbfs)
        as (to_join & neighbours & -> & Hcomp).
      * by apply list_elem_of_singleton.
      * intros b ->%list_elem_of_singleton. done.
      * intros m Hm. assert (edge nb i m) as Hedge by (by exists ws).
        split; [by apply rtc_once|by eapply edge_is_key].
      * intros t m ->%list_elem_of_singleton (ws' & Hws' & Hm).
        rewrite Hws in Hws'. by injection Hws' as <-.
      * intros k n Hk. lia.
      * pose proof (patches_inv_fill nb _ _ _ _ Hsym Hinv Hcomp) as Hinv1.
        destruct (IH _ _ Hkeys' Hinv1 Hrun) as (Hj & Hkeep & Hused).
        destruct Hinv as (_ & _ & _ & Hwhole).
        simpl. split_and!; [lia|lia| |].
        -- intros a j Ha. apply Hkeep. rewrite fill_lookup.
           rewrite bool_decide_false; [done|]. intros Hin%Hcomp.
           apply Hdone. apply (Hwhole a i); [by eexists|by apply connected_sym].
        -- intros j Hjj. destruct (decide (j = jID)) as [->|Hne].
           ++ exists i. split; [by left|]. apply Hkeep. rewrite fill_lookup.
              rewrite bool_decide_true; [done|]. by apply Hcomp.
           ++ destruct (Hused j) as (a & Ha & Hpa); [lia|].
              exists a. split; [by right|done].
Qed.

(** X14. On a symmetric graph that has the labels of the table as keys the
    patch ids are the numbers 1, 2, ... without a gap: every id below the
    final counter is the id of some object of the table, and there are at
    most as many patches as objects. *)
Theorem patch_ids_consecutive (index : list nat) (patches : gmap nat nat) (jID : nat) :
  symmetric nb →
  (∀ i, i ∈ index → is_Some (nb !! i)) →
  compute_patches nb index = Some (Ok (patches, jID)) →
  1 ≤ jID ≤ 1 + length index ∧
  ∀ j, 1 ≤ j < jID → ∃ a, a ∈ index ∧ patches !! a = Some j.
Proof.
  intros Hsym Hkeys Hrun.
  assert (patches_inv nb ∅ 1) as Hinv0.
  { split_and!; [lia| | |].
    - intros a j Ha. by rewrite lookup_empty in Ha.
    - intros a b ja jb Ha. by rewrite lookup_empty in Ha.
    - intros a b [j Ha]. by rewrite lookup_empty in Ha. }
  destruct (patch_loop_ids _ _ _ _ _ _ Hsym Hkeys Hinv0 Hrun) as (Hj & _ & Hused).
  split; [lia|done].
Qed.

End PatchIds.

(** Witness of X14: the six squares have the patches 1, 2 and 3; some
    square bears the id 2. *)
Lemma patch_ids_consecutive_witness :
  ∃ a, a ∈ [0; 1; 2; 3; 4; 5] ∧
    (list_to_map [(0, 1); (1, 1); (2, 1); (3, 2); (4, 3); (5, 3)] : gmap nat nat) !! a =
      Some 2.
Proof.
  destruct (patch_ids_consecutive six_squares [0; 1; 2; 3; 4; 5]
    (list_to_map [(0, 1); (1, 1); (2, 1); (3, 2); (4, 3); (5, 3)]) 4) as [_ Hids].
  - apply symmetricb_correct. by vm_compute.
  - intros i Hi. rewrite !elem_of_cons in Hi.
    destruct Hi as [->|[->|[->|[->|[->|[->|Hi]]]]]];
      [by vm_compute; eexists..|by apply elem_of_nil in Hi].
  - exact six_squares_patches.
  - apply Hids. lia.
Defined.

(** ** The distances of the adjacency list, continued *)

Section EdgeCacheValues.
Context (value_fn : nat → nat → result float).
Context (keys : list (nat * nat)).
Hypothesis keys_nodup : NoDup keys.
Hypothesis keys_symmetric : ∀ a b, (a, b) ∈ keys → (b, a) ∈ keys.
Hypothesis value_fn_not_sentinel : ∀ a b d, value_fn a b = Ok d → d ≠ Fin (-1).
Hypothesis value_fn_symmetric : ∀ a b, value_fn a b = value_fn b a.

(** X15. When the distance of two buildings does not depend on their
    order, the distance that the adjacency list holds for an edge after the
    loop is the distance of its two buildings, for the direction that was
    computed and for the direction that was copied alike. *)
Theorem edge_cache_holds_distances (cache : list adj_row) (computed : list (nat * nat)) :
  compute_distances value_fn (with_distance keys) = Ok (cache, computed) →
  ∀ a b, (a, b) ∈ keys → stored cache a b = value_fn a b.
Proof.
  intros Hrun a b Hab.
  apply (compute_distances_inv value_fn keys keys_nodup keys_symmetric
    value_fn_not_sentinel) in Hrun as (Hkeys & _ & _ & Hcopy & _ & Hcomp & Hval).
  simpl in *.
  assert (∀ k e, keys !! k = Some e → ∃ r, cache !! k = Some r ∧ key r = e) as Hrow.
  { intros k e. rewrite <- Hkeys, list_lookup_fmap.
    destruct (cache !! k) as [r|]; simpl; [|done]. intros [= <-]. by exists r. }
  apply keys_symmetric in Hab as Hba.
  apply list_elem_of_lookup in Hab as [k Hk], Hba as [m Hm].
  destruct (Hrow _ _ Hk) as (rk & Hrk & Hkk), (Hrow _ _ Hm) as (rm & Hrm & Hkm).
  assert (k < length keys) as Hklt by (by eapply lookup_lt_Some).
  assert (m < length keys) as Hmlt by (by eapply lookup_lt_Some).
  rewrite (stored_found cache k rk a b); [|by rewrite Hkeys|done|done].
  assert (focal rk = a ∧ neighbor rk = b) as [Hfk Hnk] by (by injection Hkk).
  assert (focal rm = b ∧ neighbor rm = a) as [Hfm Hnm] by (by injection Hkm).
  destruct (decide (m < k)) as [Hlt|Hge].
  - rewrite (Hcopy k m rk rm Hrk Hrm Hlt Hklt); [|by rewrite Hkk, Hkm].
    rewrite value_fn_symmetric, <- Hfm, <- Hnm. symmetry.
    apply (Hval m); [done|done|]. rewrite Hkm. apply Hcomp.
    exists m. split_and!; [done|done|].
    intros k' Hk' Hk''. simpl in Hk''.
    pose proof (key_position keys keys_nodup _ _ _ Hk Hk''). lia.
  - rewrite <- Hfk, <- Hnk. symmetry.
    apply (Hval k); [done|done|]. rewrite Hkk. apply Hcomp.
    exists k. split_and!; [done|done|].
    intros m' Hm' Hm''. simpl in Hm''.
    pose proof (key_position keys keys_nodup _ _ _ Hm Hm''). lia.
Qed.

End EdgeCacheValues.

Section EdgeCacheErrors.
Context (value_fn : nat → nat → result float).
Hypothesis value_fn_total : ∀ a b, ∃ d, value_fn a b = Ok d.

Lemma stored_present cur f n :
  (f, n) ∈ key <$> cur → ∃ d, stored cur f n = Ok d.
Proof.
  unfold stored. induction cur as [|r cur IH]; intros Hin; [by apply elem_of_nil in Hin|].
  simpl in Hin. destruct (decide (focal r = f)) as [Hf|Hf].
  - rewrite filter_cons_True by done. destruct (decide (neighbor r = n)) as [Hn|Hn].
    + rewrite filter_cons_True by done. by eexists.
    + rewrite filter_cons_False by done. apply IH.
      apply elem_of_cons in Hin as [[=]|Hin]; [congruence|done].
  - rewrite filter_cons_False by done. apply IH.
    apply elem_of_cons in Hin as [[=]|Hin]; [congruence|done].
Qed.

Lemma stored_absent cur f n :
  (f, n) ∉ key <$> cur → stored cur f n = Raise IndexError.
Proof.
  unfold stored. induction cur as [|r cur IH]; intros Hout; [done|].
  simpl in Hout. apply not_elem_of_cons in Hout as [Hne Hout].
  destruct (decide (focal r = f)) as [Hf|Hf].
  - rewrite filter_cons_True by done. destruct (decide (neighbor r = n)) as [Hn|Hn].
    + destruct Hne. unfold key. by rewrite Hf, Hn.
    + rewrite filter_cons_False by done. by apply IH.
  - rewrite filter_cons_False by done. by apply IH.
Qed.

Lemma cache_step_cases st i r :
  (swap_key (key r) ∈ key <$> st.1 ∧
   ∃ st', cache_step value_fn st i r = Ok st' ∧ key <$> st'.1 = key <$> st.1) ∨
  (swap_key (key r) ∉ key <$> st.1 ∧ cache_step value_fn st i r = Raise IndexError).
Proof.
  destruct st as [cur computed]. simpl.
  destruct (decide (swap_key (key r) ∈ key <$> cur)) as [Hin|Hout].
  - left. split; [done|]. destruct (stored_present _ _ _ Hin) as [d Hd].
    unfold swap_key, key in Hd. simpl in Hd. rewrite Hd. simpl.
    destruct (Float.eqb d (Fin (-1))).
    + destruct (value_fn_total (focal r) (neighbor r)) as [d' ->]. simpl.
      eexists. split; [done|]. simpl. apply set_distance_keys.
    + eexists. split; [done|]. simpl. apply set_distance_keys.
  - right. split; [done|]. apply stored_absent in Hout.
    unfold swap_key, key in Hout. simpl in Hout. by rewrite Hout.
Qed.

Lemma cache_loop_returns rows i st :
  (∀ r, r ∈ rows → swap_key (key r) ∈ key <$> st.1) →
  ∃ st', cache_loop value_fn i rows st = Ok st'.
Proof.
  revert i st. induction rows as [|r rows IH]; intros i st Hall; simpl; [by eexists|].
  destruct (cache_step_cases st i r) as [(_ & st1 & -> & Hkeys)|[Hout _]].
  - simpl. apply IH. intros r' Hr'. rewrite Hkeys. apply Hall. by right.
  - destruct Hout. apply Hall. by left.
Qed.

Lemma cache_loop_raises rows i st r :
  r ∈ rows → swap_key (key r) ∉ key <$> st.1 →
  cache_loop value_fn i rows st = Raise IndexError.
Proof.
  revert i st. induction rows as [|r0 rows IH]; intros i st Hr Hout;
    [by apply elem_of_nil in Hr|]. simpl.
  destruct (cache_step_cases st i r0) as [(Hin & st1 & -> & Hkeys)|[_ ->]]; [|done].
  simpl. apply elem_of_cons in Hr as [->|Hr]; [done|].
  apply IH; [done|]. by rewrite Hkeys.
Qed.

Lemma with_distance_keys keys : key <$> with_distance keys = keys.
Proof.
  unfold with_distance. rewrite <- list_fmap_compose.
  rewrite <- (list_fmap_id keys) at 2. apply list_fmap_ext. by intros _ [f n] _.
Qed.

(** X16. Where the distance of two buildings can always be computed, the
    loop over the adjacency list returns exactly when the list holds the
    reverse of each of its edges: an edge without its reverse makes it
    raise [IndexError]. *)
Theorem distances_need_reverse_edges (keys : list (nat * nat)) :
  ((∀ a b, (a, b) ∈ keys → (b, a) ∈ keys) →
     ∃ st, compute_distances value_fn (with_distance keys) = Ok st) ∧
  (∀ a b, (a, b) ∈ keys → (b, a) ∉ keys →
     compute_distances value_fn (with_distance keys) = Raise IndexError).
Proof.
  unfold compute_distances. split.
  - intros Hsym. apply cache_loop_returns. simpl. rewrite with_distance_keys.
    intros r Hr. assert (key r ∈ keys) as Hk.
    { rewrite <- (with_distance_keys keys). apply list_elem_of_fmap. by exists r. }
    destruct (key r) as [a b] eqn:Hkr. by apply Hsym.
  - intros a b Hab Hba.
    rewrite <- (with_distance_keys keys) in Hab.
    apply list_elem_of_fmap in Hab as (r & Hkr & Hr).
    apply (cache_loop_raises _ _ _ r); [done|]. simpl.
    rewrite with_distance_keys, <- Hkr. done.
Qed.

End EdgeCacheErrors.

Section EdgeCacheMoreScenes.
Local Open Scope R_scope.

(** Witness of X15: the two cells. *)
Lemma edge_cache_holds_distances_witness :
  stored [mkAdj 0 1 (Fin 5); mkAdj 1 0 (Fin 5)] 1 0 = Ok (Fin 5).
Proof.
  apply (edge_cache_holds_distances (λ _ _, Ok (Fin 5)) [(0, 1); (1, 0)]%nat) with
    (computed := [(0, 1)]%nat).
  - apply NoDup_cons. split; [|apply NoDup_singleton].
    intros [=]%list_elem_of_singleton.
  - intros a b Hab. rewrite !elem_of_cons in Hab |- *.
    destruct Hab as [[= -> ->]|[[= -> ->]|Hab]]; [by right; left|by left|].
    by apply elem_of_nil in Hab.
  - intros a b d [= <-] [=]. lra.
  - done.
  - exact two_cells_distances.
  - right. by left.
Defined.

(** Witness of X16: a single one-way edge. *)
Lemma distances_need_reverse_edges_witness :
  compute_distances (λ _ _, Ok (Fin 5)) (with_distance [(0, 1)]%nat) = Raise IndexError.
Proof.
  destruct (distances_need_reverse_edges (λ _ _, Ok (Fin 5))
    ltac:(intros; by eexists) [(0, 1)]%nat) as [_ Hraise].
  apply (Hraise 0%nat 1%nat); [by left|].
  intros [=]%list_elem_of_singleton.
Defined.

End EdgeCacheMoreScenes.

Section EdgeCachePlaceholder.
Context (value_fn : nat → nat → result float).
Context (keys : list (nat * nat)).
Hypothesis keys_nodup : NoDup keys.
Hypothesis keys_symmetric : ∀ a b, (a, b) ∈ keys → (b, a) ∈ keys.
Hypothesis value_fn_not_sentinel : ∀ a b d, value_fn a b = Ok d → d ≠ Fin (-1).

(** X17. After the loop no row of the adjacency list still holds the
    placeholder -1: the distance of every row is the distance computed for
    its edge or for the reverse of its edge. *)
Theorem no_placeholder_left (cache : list adj_row) (computed : list (nat * nat)) :
  compute_distances value_fn (with_distance keys) = Ok (cache, computed) →
  ∀ r, r ∈ cache →
    distance r ≠ Fin (-1) ∧
    (value_fn (focal r) (neighbor r) = Ok (distance r) ∨
     value_fn (neighbor r) (focal r) = Ok (distance r)).
Proof.
  intros Hrun r Hr.
  apply (compute_distances_inv value_fn keys keys_nodup keys_symmetric
    value_fn_not_sentinel) in Hrun as (Hkeys & _ & Hdone & Hcopy & _ & Hcomp & Hval).
  simpl in *.
  assert (∀ k x, cache !! k = Some x → keys !! k = Some (key x)) as Hcur.
  { intros k x Hk. by rewrite <- Hkeys, list_lookup_fmap, Hk. }
  apply list_elem_of_lookup in Hr as [k Hk].
  assert (k < length keys) as Hklt.
  { apply lookup_lt_Some in Hk. by rewrite <- Hkeys, length_fmap. }
  split.
  - intros Heq. specialize (Hdone k r Hk Hklt). rewrite Heq in Hdone.
    by rewrite eqb_sentinel_true in Hdone.
  - destruct (list_elem_of_lookup_1 keys (swap_key (key r))) as [m Hm].
    { apply keys_symmetric. eapply list_elem_of_lookup_2. by apply Hcur. }
    assert (∃ rm, cache !! m = Some rm ∧ key rm = swap_key (key r)) as (rm & Hrm & Hkm).
    { rewrite <- Hkeys, list_lookup_fmap in Hm.
      destruct (cache !! m) as [rm|]; simpl in Hm; [|done].
      exists rm. split; [reflexivity|congruence]. }
    assert (m < length keys) as Hmlt by (by eapply lookup_lt_Some).
    destruct (decide (m < k)) as [Hlt|Hge].
    + right. rewrite (Hcopy k m r rm Hk Hrm Hlt Hklt Hkm).
      assert (focal rm = neighbor r ∧ neighbor rm = focal r) as [<- <-]
        by (by injection Hkm).
      apply (Hval m); [done|done|]. apply Hcomp.
      exists m. split_and!; [done|by apply Hcur|].
      intros k' Hk' Hk''. rewrite Hkm in Hk''. unfold swap_key in Hk''. simpl in Hk''.
      pose proof (key_position keys keys_nodup k k' (key r) (Hcur _ _ Hk) Hk''). lia.
    + left. apply (Hval k); [done|done|]. apply Hcomp.
      exists k. split_and!; [done|by apply Hcur|].
      intros m' Hm' Hm''.
      pose proof (key_position keys keys_nodup _ _ _ Hm Hm''). lia.
Qed.

End EdgeCachePlaceholder.

Section EdgeCachePlaceholderScene.
Local Open Scope R_scope.

(** Witness of X17: the two cells, whose distance is 5 in both
    directions. *)
Lemma no_placeholder_left_witness :
  (λ _ _ : nat, Ok (Fin 5)) 1%nat 0%nat = Ok (distance (mkAdj 1 0 (Fin 5))) ∨
  (λ _ _ : nat, Ok (Fin 5)) 0%nat 1%nat = Ok (distance (mkAdj 1 0 (Fin 5))).
Proof.
  eapply (no_placeholder_left (λ _ _, Ok (Fin 5)) [(0, 1); (1, 0)]%nat).
  - apply NoDup_cons. split; [|apply NoDup_singleton].
    intros [=]%list_elem_of_singleton.
  - intros a b Hab. rewrite !elem_of_cons in Hab |- *.
    destruct Hab as [[= -> ->]|[[= -> ->]|Hab]]; [by right; left|by left|].
    by apply elem_of_nil in Hab.
  - intros a b d [= <-] [=]. lra.
  - exact two_cells_distances.
  - right. by left.
Defined.

End EdgeCachePlaceholderScene.
